(** * VertiPlant dashboard: the state-synchronisation logic of [src/App.tsx]

    A shallow embedding of the [App] component: the four state cells and
    their setters, the poll cycle [fetchData], the push handler registered
    on [send_sensor_data], the mount effect with its cleanup, and the pure
    helper [formatUptime]. *)

From Stdlib Require Import ZArith QArith Qround Qreduction Qcanon.
From Stdlib Require Import String Ascii List Lia.
From Stdlib Require Import DecimalString.
From Stdlib Require Import SpecFloat.
From stdpp Require Import base list.

Local Open Scope Z_scope.

(** ** Numbers

    A [number] is an IEEE-754 double: not-a-number, an infinity, or a
    finite value, kept as the rational it denotes.  Negative zero is
    identified with zero; the two print alike and differ only as divisors.
    [round] takes a rational to the nearest double, ties to even, with
    gradual underflow and overflow to infinity; it is what [/] applies to
    the exact quotient.  [%] and [Math.floor] are exact on doubles. *)
Module Number.

Inductive number : Type :=
| NaN
| Infinity (negative : bool)
| Finite (q : Q).

(** What [Math.floor] returns: not-a-number, an infinity, or a whole
    number. *)
Inductive whole : Type :=
| WNaN
| WInfinity (negative : bool)
| WInt (n : Z).

(** [Number.MAX_SAFE_INTEGER] *)
Definition MAX_SAFE_INTEGER : Z := 2 ^ 53 - 1.

(** The finite doubles: 53 significant bits, the unit in the last place
    between 2^-1074 and 2^971. *)
Definition double (x : Q) : Prop :=
  exists m g : Z,
    Z.abs m < 2 ^ 53 /\ - 1074 <= g <= 971
    /\ (x == (m * 2 ^ Z.max 0 g) # Z.to_pos (2 ^ Z.max 0 (- g)))%Q.

(** The integer nearest to [n / d], the even one of two. *)
Definition rne (n : Z) (d : positive) : Z :=
  let f := n / Zpos d in
  match 2 * (n mod Zpos d) ?= Zpos d with
  | Lt => f
  | Gt => f + 1
  | Eq => if Z.even f then f else f + 1
  end.

(** The binary exponent of [a / b]: the [E] with [2^E <= a/b < 2^(E+1)]. *)
Definition ilog2 (a b : positive) : Z :=
  let N := Z.log2 (Zpos b) + 1 in
  Z.log2 (Zpos a * 2 ^ N / Zpos b) - N.

(** The double nearest to [a / b]: 53 bits are kept from the leading one
    on, and no bit below 2^-1074. *)
Definition round_pos (a b : positive) : number :=
  let E := ilog2 a b in
  let e := Z.max (E - 52) (- 1074) in
  let up := Z.to_pos (2 ^ Z.max 0 e) in
  let down := Z.to_pos (2 ^ Z.max 0 (- e)) in
  let m := rne (Zpos a * Zpos down) (b * up) in
  let v := Qred ((m * Zpos up) # down) in
  if Qle_bool (inject_Z (2 ^ 1024)) v then Infinity false else Finite v.

Definition opp (x : number) : number :=
  match x with
  | NaN => NaN
  | Infinity s => Infinity (negb s)
  | Finite q => Finite (- q)
  end.

Definition round (q : Q) : number :=
  match Qnum (Qred q) with
  | Z0 => Finite 0
  | Zpos a => round_pos a (Qden (Qred q))
  | Zneg a => opp (round_pos a (Qden (Qred q)))
  end.

(** A whole number read as a [number]: the nearest double. *)
Definition of_int (n : Z) : number := round (inject_Z n).

Definition negative (q : Q) : bool := Z.ltb (Qnum q) 0.
Definition is_zero (q : Q) : bool := Z.eqb (Qnum q) 0.

(** [x / y] *)
Definition div (x y : number) : number :=
  match x, y with
  | NaN, _ | _, NaN => NaN
  | Infinity _, Infinity _ => NaN
  | Infinity s, Finite q => Infinity (xorb s (negative q))
  | Finite _, Infinity _ => Finite 0
  | Finite p, Finite q =>
      if is_zero q
      then if is_zero p then NaN else Infinity (negative p)
      else round (p / q)
  end.

(** Rounding towards zero, as used by the remainder operator. *)
Definition trunc (x : Q) : Z :=
  if Qlt_le_dec x 0 then Qceiling x else Qfloor x.

(** [x % y]: exact, with the sign of the dividend. *)
Definition rem (x y : number) : number :=
  match x, y with
  | NaN, _ | _, NaN | Infinity _, _ => NaN
  | Finite p, Infinity _ => Finite p
  | Finite p, Finite q =>
      if is_zero q then NaN
      else Finite (Qred (p - q * inject_Z (trunc (p / q))))
  end.

(** [Math.floor] *)
Definition Math_floor (x : number) : whole :=
  match x with
  | NaN => WNaN
  | Infinity s => WInfinity s
  | Finite q => WInt (Qfloor q)
  end.

(** The decimal numeral of an integer. *)
Definition decimal (n : Z) : string := NilZero.string_of_int (Z.to_int n).

(** [`${n}`] for a whole [n] is [Number::toString]: the fewest
    significant digits that still read back as [n], padded with zeros up
    to 21 digits and in exponent notation beyond. *)
Definition round_trips (c v : Z) : bool :=
  match round (inject_Z c) with
  | Finite q => Qeq_bool q (inject_Z v)
  | NaN | Infinity _ => false
  end.

(** The multiple of [10^z] that reads back as [v], if there is one; the
    nearer of two, and of two equally near the one with the even digits. *)
Definition candidate (v : Z) (z : nat) : option Z :=
  let p := 10 ^ Z.of_nat z in
  let lo := v / p * p in
  let hi := lo + p in
  match (0 <? lo) && round_trips lo v, round_trips hi v with
  | true, true =>
      match v - lo ?= hi - v with
      | Lt => Some lo
      | Gt => Some hi
      | Eq => if Z.even (v / p) then Some lo else Some hi
      end
  | true, false => Some lo
  | false, true => Some hi
  | false, false => None
  end.

(** The candidate with the most trailing zeros, among at most [z]. *)
Fixpoint shortest (v : Z) (z : nat) : Z :=
  match candidate v z with
  | Some c => c
  | None => match z with
            | O => v
            | S z' => shortest v z'
            end
  end.

Fixpoint strip_zeros (rev_digits : string) : string :=
  match rev_digits with
  | String "0" s => strip_zeros s
  | s => s
  end.

Fixpoint rev_string (s acc : string) : string :=
  match s with
  | EmptyString => acc
  | String c s' => rev_string s' (String c acc)
  end.

(** [d.ddde+x] *)
Definition exponential (c : Z) : string :=
  let ds := decimal c in
  let sig := rev_string (strip_zeros (rev_string ds EmptyString)) EmptyString in
  let e := decimal (Z.of_nat (String.length ds) - 1) in
  match sig with
  | EmptyString => ds
  | String d EmptyString => (String d EmptyString ++ "e+" ++ e)%string
  | String d rest => (String d EmptyString ++ "." ++ rest ++ "e+" ++ e)%string
  end.

Definition digits (v : Z) : string :=
  if v =? 0 then "0"%string
  else
    let c := shortest v (String.length (decimal v)) in
    if c <? 10 ^ 21 then decimal c else exponential c.

Definition to_string (w : whole) : string :=
  match w with
  | WNaN => "NaN"
  | WInfinity false => "Infinity"
  | WInfinity true => "-Infinity"
  | WInt n => if n <? 0 then ("-" ++ digits (- n))%string else digits n
  end.

End Number.

Coercion Number.Finite : Q >-> Number.number.

(** ** The Standard Library's binary64

    [SpecFloat] specifies IEEE 754 arithmetic on sign, mantissa and
    exponent.  [of_spec] reads such a float as a [Number.number], so that
    [Number.round] and [Number.div] can be compared with
    [binary_normalize] and [SFdiv] on sample operands. *)
Definition of_spec (x : spec_float) : Number.number :=
  match x with
  | S754_zero _ => Number.Finite 0
  | S754_infinity s => Number.Infinity s
  | S754_nan => Number.NaN
  | S754_finite s m e =>
      Number.Finite
        (Qred ((if s then Zneg m else Zpos m) * 2 ^ Z.max 0 e
               # Z.to_pos (2 ^ Z.max 0 (- e))))
  end.

(** The binary64 nearest to [m * 2 ^ e]. *)
Definition binary64 (m e : Z) : spec_float :=
  binary_normalize 53 1024 m e false.

Definition sample_integers : list Z :=
  [0; 1; 3600; 86399; 2 ^ 53 - 1; 2 ^ 53 + 1; 2 ^ 53 + 3; 10 ^ 21;
   3600 * 10 ^ 21; - (10 ^ 23);
   2 ^ 1024 - 2 ^ 970 - 1; 2 ^ 1024 - 2 ^ 970; 2 ^ 1024].

Definition sample_operands : list (spec_float * spec_float) :=
  [ (binary64 253327479039593984 0, binary64 3600 0);
    (binary64 1 0, binary64 3 0);
    (binary64 (10 ^ 21) 0, binary64 3600 0);
    (binary64 86399 0, binary64 3600 0);
    (binary64 (2 ^ 53 - 1) 0, binary64 3600 0);
    (binary64 (- 7) 0, binary64 3600 0);
    (binary64 7325 (- 1), binary64 60 0);
    (binary64 1 (- 1074), binary64 3 0);
    (binary64 3 (- 1074), binary64 2 0);
    (binary64 1 1023, binary64 1 (- 1));
    (binary64 (2 ^ 53 - 1) 971, binary64 (2 ^ 53 - 1) (- 53)) ].

(** ** View helper: [formatUptime] (App.tsx, lines 85-89) *)
Definition formatUptime (seconds : Number.number) : string :=
  let hours := Number.Math_floor (Number.div seconds (Number.of_int 3600)) in
  let minutes :=
    Number.Math_floor
      (Number.div (Number.rem seconds (Number.of_int 3600))
                  (Number.of_int 60)) in
  (Number.to_string hours ++ "h " ++ Number.to_string minutes ++ "m")%string.

(** ** Data model (App.tsx, lines 8-35) *)

(** The type [any]: a decoded JSON value, passed through uninterpreted. *)
#[warnings="-register-all"]
Inductive any : Type :=
| JNull
| JBool (b : bool)
| JNumber (n : Number.number)
| JString (s : string)
| JArray (items : list any)
| JObject (fields : list (string * any)).

Module Camera.
Record t : Type := mk {
  id : Number.number;
  name : option string;
  device : string;
  streamPort : Number.number;
  streamUrl : string
}.
End Camera.

Module Prediction.
Record t : Type := mk {
  cameraId : Number.number;
  model : string;
  timestamp : string;
  result : any
}.
End Prediction.

Module Status.
Record t : Type := mk {
  cameras : Number.number;
  models : list string;
  currentModel : option string;
  totalPredictions : Number.number;
  uptime : Number.number
}.
End Status.

Module SystemError.
Record t : Type := mk {
  cameraId : Number.number;
  error : string;
  timestamp : string
}.
End SystemError.

(** The five [useState] cells of [App] (lines 38-42). *)
Record AppState : Type := mkAppState {
  cameras : list Camera.t;
  predictions : list Prediction.t;
  status : option Status.t;
  errors : list SystemError.t;
  isLogExpanded : bool
}.

(** The initial values handed to [useState]. *)
Definition initial_state : AppState :=
  {| cameras := []; predictions := []; status := None; errors := [];
     isLogExpanded := false |}.

(** ** Effects

    A handler never reads the cells; it calls setters and the console.
    Each call is recorded, in program order, and React applies the
    recorded updates to the cells in that order. *)
Inductive Error : Type :=
| TypeError      (* a [fetch] that rejects: the network request failed *)
| SyntaxError.   (* text that is not JSON *)

Inductive Effect : Type :=
| SetCameras (v : list Camera.t)
| SetPredictions (v : list Prediction.t)
| SetPredictionsWith (f : list Prediction.t -> list Prediction.t)
| SetStatus (v : option Status.t)
| SetErrors (v : list SystemError.t)
| SetIsLogExpanded (v : bool)
| ConsoleError (msg : string) (e : Error).

Inductive Result (A : Type) : Type :=
| Returned (a : A)
| Thrown (e : Error).
Arguments Returned {A} a.
Arguments Thrown {A} e.

(** A computation runs from a time on the clock; it makes calls, each
    stamped with the time on the clock when it is made, ends as a
    [Result], and leaves the clock where it stopped waiting.  The clock
    only moves when the computation waits for a promise: it is the time of
    the latest settlement waited for so far, a lower bound of the real
    time of the call. *)
Definition Log : Type := list (nat * Effect).

Definition M (A : Type) : Type := nat -> Log * Result A * nat.

#[global] Instance M_ret : MRet M := fun A a now => ([], Returned a, now).

#[global] Instance M_bind : MBind M := fun A B f m now =>
  match m now with
  | (l, Returned a, now') =>
      let '(l', r, now'') := f a now' in (l ++ l', r, now'')
  | (l, Thrown e, now') => (l, Thrown e, now')
  end.

Definition perform (e : Effect) : M unit :=
  fun now => ([(now, e)], Returned tt, now).

Definition throw {A : Type} (e : Error) : M A :=
  fun now => ([], Thrown e, now).

(** The function is resumed at time [t], or goes on if [t] is past. *)
Definition wait_until (t : nat) : M unit :=
  fun now => ([], Returned tt, Nat.max now t).

(** [try { body } catch (error) { handler }] *)
Definition try_catch {A : Type} (body : M A) (handler : Error -> M A) : M A :=
  fun now =>
    match body now with
    | (l, Returned a, now') => (l, Returned a, now')
    | (l, Thrown e, now') =>
        let '(l', r, now'') := handler e now' in (l ++ l', r, now'')
    end.

(** [if (cond) stmt;] *)
Definition when (cond : bool) (stmt : M unit) : M unit :=
  if cond then stmt else mret tt.

(** The calls of a computation started at time 0, with their times, and
    without; and how it ended. *)
Definition timeline {A : Type} (m : M A) : Log := fst (fst (m O)).
Definition effects {A : Type} (m : M A) : list Effect := (timeline m).*2.
Definition outcome {A : Type} (m : M A) : Result A := snd (fst (m O)).

(** The setters and the console. *)
Definition setCameras (v : list Camera.t) : M unit := perform (SetCameras v).
Definition setPredictions (v : list Prediction.t) : M unit :=
  perform (SetPredictions v).
Definition setPredictionsWith (f : list Prediction.t -> list Prediction.t)
  : M unit := perform (SetPredictionsWith f).
Definition setStatus (v : option Status.t) : M unit :=
  perform (SetStatus v).
Definition setErrors (v : list SystemError.t) : M unit := perform (SetErrors v).
Definition setIsLogExpanded (v : bool) : M unit := perform (SetIsLogExpanded v).
Definition console_error (msg : string) (e : Error) : M unit :=
  perform (ConsoleError msg e).

(** How React applies one recorded update to the cells. *)
Definition apply_effect (s : AppState) (e : Effect) : AppState :=
  match e with
  | SetCameras v =>
      {| cameras := v; predictions := predictions s; status := status s;
         errors := errors s; isLogExpanded := isLogExpanded s |}
  | SetPredictions v =>
      {| cameras := cameras s; predictions := v; status := status s;
         errors := errors s; isLogExpanded := isLogExpanded s |}
  | SetPredictionsWith f =>
      {| cameras := cameras s; predictions := f (predictions s);
         status := status s; errors := errors s;
         isLogExpanded := isLogExpanded s |}
  | SetStatus v =>
      {| cameras := cameras s; predictions := predictions s; status := v;
         errors := errors s; isLogExpanded := isLogExpanded s |}
  | SetErrors v =>
      {| cameras := cameras s; predictions := predictions s; status := status s;
         errors := v; isLogExpanded := isLogExpanded s |}
  | SetIsLogExpanded v =>
      {| cameras := cameras s; predictions := predictions s; status := status s;
         errors := errors s; isLogExpanded := v |}
  | ConsoleError _ _ => s
  end.

Definition commit (l : list Effect) (s : AppState) : AppState :=
  fold_left apply_effect l s.

(** ** The poll cycle: [fetchData] (lines 44-60) *)

(** A [Response]: its [ok] flag and what [json()] resolves to; [None] is
    a body that does not decode, for which [json()] rejects. *)
Record Response (T : Type) : Type := mkResponse {
  ok : bool;
  json : option T
}.
Arguments mkResponse {T} ok json.
Arguments ok {T} r.
Arguments json {T} r.

(** How the promise returned by [fetch] settles.  It rejects on a network
    failure only; an HTTP error status fulfils it with [ok = false]. *)
Inductive Settled (T : Type) : Type :=
| Fulfilled (r : Response T)
| Rejected.
Arguments Fulfilled {T} r.
Arguments Rejected {T}.

Inductive Resource : Type := RCameras | RPredictions | RStatus | RErrors.

#[global] Instance Resource_eq_dec : EqDecision Resource.
Proof. solve_decision. Defined.

(** What the backend does during one cycle: how each of the four requests
    settles, and when. *)
Record Cycle : Type := mkCycle {
  camerasFetch : Settled (list Camera.t);
  predictionsFetch : Settled (list Prediction.t);
  statusFetch : Settled (option Status.t);
  errorsFetch : Settled (list SystemError.t);
  arrival : Resource -> nat
}.

(** A promise: how it settles, and when. *)
Definition Promise (T : Type) : Type := (Settled T * nat)%type.

(** [fetch(url)] for each of the four resources. *)
Definition fetch_cameras (c : Cycle) : Promise (list Camera.t) :=
  (camerasFetch c, arrival c RCameras).
Definition fetch_predictions (c : Cycle) : Promise (list Prediction.t) :=
  (predictionsFetch c, arrival c RPredictions).
Definition fetch_status (c : Cycle) : Promise (option Status.t) :=
  (statusFetch c, arrival c RStatus).
Definition fetch_errors (c : Cycle) : Promise (list SystemError.t) :=
  (errorsFetch c, arrival c RErrors).

(** [await res.json()].  Reading the body takes time as well; the clock
    is not advanced for it, so the times in the log are lower bounds. *)
Definition await_json {T : Type} (res : Response T) : M T :=
  match json res with
  | Some v => mret v
  | None => throw SyntaxError
  end.

(** When a promise rejects, if it does. *)
Definition rejection {T : Type} (p : Promise T) : option nat :=
  match fst p with
  | Fulfilled _ => None
  | Rejected => Some (snd p)
  end.

(** The earliest of the times given. *)
Definition earliest (ts : list (option nat)) : nat :=
  match omap id ts with
  | [] => O
  | t :: ts' => foldr Nat.min t ts'
  end.

(** [await Promise.all([a, b, c, d])]: when all four fulfil, the function
    is resumed once the last response is there, with the four responses
    in the order of the array; when one rejects, it is resumed at the
    first rejection, with its error. *)
Definition Promise_all {A B C D : Type}
    (a : Promise A) (b : Promise B) (c : Promise C) (d : Promise D)
  : M (Response A * Response B * Response C * Response D) :=
  match fst a, fst b, fst c, fst d with
  | Fulfilled ra, Fulfilled rb, Fulfilled rc, Fulfilled rd =>
      wait_until (Nat.max (snd a) (Nat.max (snd b) (Nat.max (snd c) (snd d))));;
      mret (ra, rb, rc, rd)
  | _, _, _, _ =>
      wait_until (earliest [rejection a; rejection b; rejection c; rejection d]);;
      throw TypeError
  end.

Definition fetchData (c : Cycle) : M unit :=
  try_catch
    ('(camerasRes, predictionsRes, statusRes, errorsRes) ←
       Promise_all (fetch_cameras c) (fetch_predictions c)
                   (fetch_status c) (fetch_errors c);
     when (ok camerasRes) (v ← await_json camerasRes; setCameras v);;
     when (ok predictionsRes) (v ← await_json predictionsRes; setPredictions v);;
     when (ok statusRes) (v ← await_json statusRes; setStatus v);;
     when (ok errorsRes) (v ← await_json errorsRes; setErrors v))
    (fun error => console_error "Error fetching data:" error).

(** ** The log toggle (line 156): [() => setIsLogExpanded(!isLogExpanded)],
    with the value of the cell at the render that created the closure. *)
Definition onToggle (s : AppState) : M unit :=
  setIsLogExpanded (negb (isLogExpanded s)).

(** What the one execution context is asked to handle. *)
Inductive Event : Type :=
| Poll (c : Cycle)          (* a poll cycle, from start to end *)
| Push (data : string)      (* a [send_sensor_data] frame *)
| Toggle.                   (* a click on the log header *)

(** ** The push handler (lines 76-79)

    [JSON.parse] belongs to the host.  The handler puts its result in the
    [Prediction[]] cell, so it is typed here as producing a [Prediction];
    [None] is the [SyntaxError] it throws on text that is not JSON. *)
Section PushHandler.

Variable JSON_parse : string -> option Prediction.t.

Definition parse (data : string) : M Prediction.t :=
  match JSON_parse data with
  | Some v => mret v
  | None => throw SyntaxError
  end.

Definition on_send_sensor_data (data : string) : M unit :=
  parsedData ← parse data;
  setPredictionsWith (fun prevPredictions => parsedData :: prevPredictions).

(** ** The event loop

    One execution context: a handler runs to completion, React then
    applies the updates it recorded and renders. *)
Definition handle (s : AppState) (ev : Event) : M unit :=
  match ev with
  | Poll c => fetchData c
  | Push data => on_send_sensor_data data
  | Toggle => onToggle s
  end.

Definition step (s : AppState) (ev : Event) : AppState :=
  commit (effects (handle s ev)) s.

Definition run (evs : list Event) (s : AppState) : AppState :=
  fold_left step evs s.

(** A push frame handled while a poll cycle is suspended at one of its
    [await]s: the first [k] updates of the cycle, then the handler's,
    then the rest of the cycle's. *)
Definition interleave (k : nat) (c : Cycle) (data : string) (s : AppState)
  : AppState :=
  let poll := effects (fetchData c) in
  commit (drop k poll)
    (commit (effects (on_send_sensor_data data)) (commit (take k poll) s)).

End PushHandler.

(** ** The mount effect and its cleanup (lines 62-83)

    The host resources the effect acquires: interval timers and
    socket.io connections. *)
Module Lifecycle.

Record Socket : Type := mkSocket {
  url : string;
  transports : list string;
  path : string;
  reconnection : bool;
  connected : bool;
  listeners : list string      (* the topics with a registered handler *)
}.

Record Host : Type := mkHost {
  nextId : nat;                    (* the next timer id *)
  intervals : list (nat * nat);    (* active timers: id and period in ms *)
  sockets : list Socket;
  polls : nat                      (* calls of [fetchData] made directly *)
}.

Definition empty_host : Host :=
  {| nextId := 0; intervals := []; sockets := []; polls := 0 |}.

(** [fetchData()] *)
Definition call_fetchData (h : Host) : Host :=
  {| nextId := nextId h; intervals := intervals h; sockets := sockets h;
     polls := S (polls h) |}.

(** [io(url, opts)]: opens a connection and returns its handle. *)
Definition io (u : string) (ts : list string) (p : string) (r : bool)
    (h : Host) : nat * Host :=
  (length (sockets h),
   {| nextId := nextId h; intervals := intervals h;
      sockets := sockets h ++ [mkSocket u ts p r true []];
      polls := polls h |}).

(** [socket.on(topic, handler)] *)
Definition socket_on (socket : nat) (topic : string) (h : Host) : Host :=
  {| nextId := nextId h; intervals := intervals h;
     sockets :=
       alter (fun k => mkSocket (url k) (transports k) (path k)
                         (reconnection k) (connected k)
                         (listeners k ++ [topic]))
             socket (sockets h);
     polls := polls h |}.

(** [setInterval(fetchData, ms)] *)
Definition setInterval (ms : nat) (h : Host) : nat * Host :=
  (nextId h,
   {| nextId := S (nextId h); intervals := intervals h ++ [(nextId h, ms)];
      sockets := sockets h; polls := polls h |}).

(** [clearInterval(id)] *)
Definition clearInterval (id : nat) (h : Host) : Host :=
  {| nextId := nextId h;
     intervals := List.filter (fun t => negb (Nat.eqb (fst t) id)) (intervals h);
     sockets := sockets h; polls := polls h |}.

(** The body of the effect; it returns the cleanup closure. *)
Definition useEffect (h : Host) : Host * (Host -> Host) :=
  let h := call_fetchData h in
  let '(socket, h) :=
    io "https://vertiapp.xyz" ["websocket"; "polling"]%string
       "/socket.io/" true h in
  let h := socket_on socket "connect" h in
  let h := socket_on socket "send_sensor_data" h in
  let '(interval, h) := setInterval 1000 h in
  (h, clearInterval interval).

(** Mounting runs the effect, unmounting runs the cleanup it returned. *)
Definition mount_unmount (h : Host) : Host :=
  let '(h', cleanup) := useEffect h in cleanup h'.

(** The connections that are open and deliver [topic] to a handler. *)
Definition subscriptions (topic : string) (h : Host) : nat :=
  length (List.filter (fun k => connected k
                           && existsb (String.eqb topic) (listeners k))
                 (sockets h)).

End Lifecycle.

(** ** Vocabulary for the properties *)

(** The cells after one poll cycle. *)
Definition poll (c : Cycle) (s : AppState) : AppState :=
  commit (effects (fetchData c)) s.

(** A request fails: a network error, or a non-success status. *)
Definition failed {T : Type} (p : Settled T) : bool :=
  match p with
  | Fulfilled r => negb (ok r)
  | Rejected => true
  end.

(** A request is answered, with a non-success status. *)
Definition refused {T : Type} (p : Settled T) : bool :=
  match p with
  | Fulfilled r => negb (ok r)
  | Rejected => false
  end.

Definition rejected {T : Type} (p : Settled T) : bool :=
  match p with
  | Fulfilled _ => false
  | Rejected => true
  end.

(** A request succeeds: a success status and a body that decodes. *)
Definition payload {T : Type} (p : Settled T) : option T :=
  match p with
  | Fulfilled r => if ok r then json r else None
  | Rejected => None
  end.

(** A request is answered and its line of [fetchData] does not throw:
    either the status is a non-success one, or the body decodes. *)
Definition passes {T : Type} (p : Settled T) : bool :=
  match p with
  | Fulfilled r => negb (ok r) || bool_decide (is_Some (json r))
  | Rejected => false
  end.

(** The same, by resource. *)
Definition failed_at (r : Resource) (c : Cycle) : bool :=
  match r with
  | RCameras => failed (camerasFetch c)
  | RPredictions => failed (predictionsFetch c)
  | RStatus => failed (statusFetch c)
  | RErrors => failed (errorsFetch c)
  end.

Definition refused_at (r : Resource) (c : Cycle) : bool :=
  match r with
  | RCameras => refused (camerasFetch c)
  | RPredictions => refused (predictionsFetch c)
  | RStatus => refused (statusFetch c)
  | RErrors => refused (errorsFetch c)
  end.

Definition rejected_at (r : Resource) (c : Cycle) : bool :=
  match r with
  | RCameras => rejected (camerasFetch c)
  | RPredictions => rejected (predictionsFetch c)
  | RStatus => rejected (statusFetch c)
  | RErrors => rejected (errorsFetch c)
  end.

(** The content of a cell, whichever cell it is. *)
Inductive Value : Type :=
| VCameras (v : list Camera.t)
| VPredictions (v : list Prediction.t)
| VStatus (v : option Status.t)
| VErrors (v : list SystemError.t).

Definition cell (r : Resource) (s : AppState) : Value :=
  match r with
  | RCameras => VCameras (cameras s)
  | RPredictions => VPredictions (predictions s)
  | RStatus => VStatus (status s)
  | RErrors => VErrors (errors s)
  end.

(** What a successful request for [r] brought back, as a cell content. *)
Definition delivered (r : Resource) (c : Cycle) : option Value :=
  match r with
  | RCameras => VCameras <$> payload (camerasFetch c)
  | RPredictions => VPredictions <$> payload (predictionsFetch c)
  | RStatus => VStatus <$> payload (statusFetch c)
  | RErrors => VErrors <$> payload (errorsFetch c)
  end.

(** The resource a setter call writes. *)
Definition setter_of (e : Effect) : option Resource :=
  match e with
  | SetCameras _ => Some RCameras
  | SetPredictions _ | SetPredictionsWith _ => Some RPredictions
  | SetStatus _ => Some RStatus
  | SetErrors _ => Some RErrors
  | SetIsLogExpanded _ | ConsoleError _ _ => None
  end.

(** The setters a cycle calls, in the order it calls them. *)
Definition setter_order (c : Cycle) : list Resource :=
  omap setter_of (effects (fetchData c)).

(** The order of the four lines of [fetchData]. *)
Definition program_order : list Resource :=
  [RCameras; RPredictions; RStatus; RErrors].

(** The order in which the four responses arrived: the resources by
    arrival time, the earlier request first among equals. *)
Fixpoint insert_by (t : Resource -> nat) (r : Resource) (l : list Resource)
  : list Resource :=
  match l with
  | [] => [r]
  | x :: l' => if Nat.leb (t r) (t x) then r :: l else x :: insert_by t r l'
  end.

Definition arrival_order (c : Cycle) : list Resource :=
  foldr (insert_by (arrival c)) [] program_order.

(** The same cycle with other arrival times. *)
Definition with_arrival (t : Resource -> nat) (c : Cycle) : Cycle :=
  {| camerasFetch := camerasFetch c; predictionsFetch := predictionsFetch c;
     statusFetch := statusFetch c; errorsFetch := errorsFetch c;
     arrival := t |}.

(** A recorded call that writes what this cycle's own response carried. *)
Definition from_cycle (c : Cycle) (e : Effect) : Prop :=
  match e with
  | SetCameras v => payload (camerasFetch c) = Some v
  | SetPredictions v => payload (predictionsFetch c) = Some v
  | SetStatus v => payload (statusFetch c) = Some v
  | SetErrors v => payload (errorsFetch c) = Some v
  | ConsoleError _ _ => True
  | SetPredictionsWith _ | SetIsLogExpanded _ => False
  end.

(** How many recorded calls of a cycle come before its replacement of
    the predictions, when it makes one. *)
Definition predictions_write_index (c : Cycle) : option nat :=
  fst <$> list_find (fun e => setter_of e = Some RPredictions)
                    (effects (fetchData c)).

(** ** Sample data *)
Module Sample.

Local Open Scope string_scope.
Local Open Scope Q_scope.

Definition cam1 : Camera.t :=
  Camera.mk 1 (Some "Rack A") "/dev/video0" 8081 "http://localhost:8081/stream".

Definition p0 : Prediction.t := Prediction.mk 1 "leaf-health" "2025-01-01T00:00:02Z" JNull.
Definition p1 : Prediction.t := Prediction.mk 1 "leaf-health" "2025-01-01T00:00:01Z" (JBool true).
Definition p2 : Prediction.t := Prediction.mk 2 "leaf-health" "2025-01-01T00:00:00Z" (JNumber 3).
Definition pA : Prediction.t := Prediction.mk 2 "growth" "2025-01-01T00:00:04Z" (JString "ok").
Definition pB : Prediction.t := Prediction.mk 1 "growth" "2025-01-01T00:00:03Z" (JArray []).

Definition old_status : Status.t :=
  Status.mk 1 ["leaf-health"] None 0 59.
Definition new_status : Status.t :=
  Status.mk 2 ["leaf-health"; "growth"] (Some "growth") 5 3661.

Definition err1 : SystemError.t :=
  SystemError.mk 2 "camera unreachable" "2025-01-01T00:00:05Z".

(** Cells that hold earlier values of all four entities. *)
Definition before : AppState :=
  {| cameras := []; predictions := [p1; p2]; status := Some old_status;
     errors := [err1]; isLogExpanded := true |}.

Definition answer {T : Type} (v : T) : Settled T :=
  Fulfilled (mkResponse true (Some v)).

Definition http_error {T : Type} : Settled T :=
  Fulfilled (mkResponse false None).

Definition together : Resource -> nat := fun _ => O.

(** All four requests succeed. *)
Definition all_succeed : Cycle :=
  mkCycle (answer [cam1]) (answer [pA; pB]) (answer (Some new_status)) (answer [])
          together.

(** [/errors] answers with a non-success status, the others succeed. *)
Definition errors_refused : Cycle :=
  mkCycle (answer [cam1]) (answer [pA; pB]) (answer (Some new_status)) http_error
          together.

(** The request for [/errors] rejects, the others succeed. *)
Definition errors_rejected : Cycle :=
  mkCycle (answer [cam1]) (answer [pA; pB]) (answer (Some new_status)) Rejected
          together.

(** The request for [/cameras] rejects, the others succeed. *)
Definition cameras_rejected : Cycle :=
  mkCycle Rejected (answer [pA; pB]) (answer (Some new_status)) (answer [])
          together.

(** All four succeed; the responses arrive in the reverse of the order
    in which the requests were made. *)
Definition last_first : Resource -> nat := fun r =>
  match r with
  | RCameras => 4 | RPredictions => 3 | RStatus => 2 | RErrors => 1
  end%nat.

Definition reversed : Cycle := with_arrival last_first all_succeed.

(** Two frames, and a host parser described on them: the first is the
    JSON text of [p0], the second is not JSON. *)
Definition q : string := String (ascii_of_nat 34) EmptyString.

Definition frame_p0 : string :=
  "{" ++ q ++ "cameraId" ++ q ++ ":1,"
      ++ q ++ "model" ++ q ++ ":" ++ q ++ "leaf-health" ++ q ++ ","
      ++ q ++ "timestamp" ++ q ++ ":" ++ q ++ "2025-01-01T00:00:02Z" ++ q ++ ","
      ++ q ++ "result" ++ q ++ ":null}".

Definition frame_garbage : string := "{cameraId: 1".

Definition host_parse (data : string) : option Prediction.t :=
  if String.eqb data frame_p0 then Some p0 else None.

End Sample.

(** ** The rendered view (lines 91-159)

    What [App] hands to the DOM and to its two child components, as far
    as it depends on the cells. *)

(** [a || b] on a nullable string: [null] and the empty string are falsy. *)
Definition or_else (a : option string) (b : string) : string :=
  match a with
  | None => b
  | Some EmptyString => b
  | Some v => v
  end.

(** The fragment under [status && (...)] (lines 121-135). *)
Record StatusPanel : Type := mkStatusPanel {
  modelText : string;
  uptimeText : string
}.

Record CameraGridProps : Type := mkCameraGridProps {
  grid_cameras : list Camera.t;
  grid_predictions : list Prediction.t;
  grid_errors : list SystemError.t
}.

Record PredictionLogProps : Type := mkPredictionLogProps {
  log_predictions : list Prediction.t;
  log_isExpanded : bool
}.

Record View : Type := mkView {
  cameraCount : nat;                   (* [cameras.length], line 117 *)
  statusPanel : option StatusPanel;
  cameraGrid : CameraGridProps;        (* line 149 *)
  predictionLog : PredictionLogProps   (* lines 153-157 *)
}.

Definition render (s : AppState) : View :=
  {| cameraCount := length (cameras s);
     statusPanel :=
       match status s with
       | Some st =>
           Some {| modelText := or_else (Status.currentModel st) "N/A";
                   uptimeText := formatUptime (Status.uptime st) |}
       | None => None
       end;
     cameraGrid :=
       {| grid_cameras := cameras s; grid_predictions := predictions s;
          grid_errors := errors s |};
     predictionLog :=
       {| log_predictions := predictions s;
          log_isExpanded := isLogExpanded s |} |}.

(** ** More vocabulary *)

Definition passes_at (r : Resource) (c : Cycle) : bool :=
  match r with
  | RCameras => passes (camerasFetch c)
  | RPredictions => passes (predictionsFetch c)
  | RStatus => passes (statusFetch c)
  | RErrors => passes (errorsFetch c)
  end.

(** A request is answered with a success status and a body that does not
    decode. *)
Definition garbled {T : Type} (p : Settled T) : bool :=
  match p with
  | Fulfilled r => ok r && negb (bool_decide (is_Some (json r)))
  | Rejected => false
  end.

Definition garbled_at (r : Resource) (c : Cycle) : bool :=
  match r with
  | RCameras => garbled (camerasFetch c)
  | RPredictions => garbled (predictionsFetch c)
  | RStatus => garbled (statusFetch c)
  | RErrors => garbled (errorsFetch c)
  end.

(** The position of a resource's line among lines 53-56. *)
Definition line (r : Resource) : nat :=
  match r with
  | RCameras => 0
  | RPredictions => 1
  | RStatus => 2
  | RErrors => 3
  end.

Definition is_setter (e : Effect) : Prop := is_Some (setter_of e).

(** The items that the frames of a run decode to, in arrival order. *)
Definition decoded (JSON_parse : string -> option Prediction.t)
    (evs : list Event) : list Prediction.t :=
  omap (fun ev => match ev with
                  | Push data => JSON_parse data
                  | Poll _ | Toggle => None
                  end) evs.

(** [Merge l1 l2 l]: [l] runs the steps of [l1] and of [l2], each in its
    own order, in some interleaving.  Two poll cycles overlap this way
    when one takes longer than the timer period. *)
Inductive Merge {A : Type} : list A -> list A -> list A -> Prop :=
| merge_nil : Merge [] [] []
| merge_left (x : A) (l1 l2 l : list A) :
    Merge l1 l2 l -> Merge (x :: l1) l2 (x :: l)
| merge_right (x : A) (l1 l2 l : list A) :
    Merge l1 l2 l -> Merge l1 (x :: l2) (x :: l).

(** Timer ids handed out so far are below the next one. *)
Definition fresh_ids (h : Lifecycle.Host) : Prop :=
  Forall (fun t => (fst t < Lifecycle.nextId h)%nat) (Lifecycle.intervals h).

(** ** More sample data *)
Module Scenario.

Local Open Scope string_scope.
Local Open Scope Q_scope.

Definition cam2 : Camera.t :=
  Camera.mk 2 None "/dev/video1" 8082 "http://localhost:8082/stream".

Definition later_status : Status.t :=
  Status.mk 2 ["leaf-health"; "growth"] (Some EmptyString) 9 (7325 # 2).

(** [/predictions] answers with a success status and a body that is not
    JSON; the three others succeed. *)
Definition predictions_garbled : Cycle :=
  mkCycle (Sample.answer [Sample.cam1])
          (Fulfilled (mkResponse true None))
          (Sample.answer (Some Sample.new_status)) (Sample.answer [])
          Sample.together.

(** A second cycle, all successful, with other values. *)
Definition later : Cycle :=
  mkCycle (Sample.answer [Sample.cam1; cam2]) (Sample.answer [Sample.p0])
          (Sample.answer (Some later_status)) (Sample.answer [Sample.err1])
          Sample.together.

(** All four succeed, and the body of [/status] is the JSON text
    [null]. *)
Definition status_null : Cycle :=
  mkCycle (Sample.answer [Sample.cam1]) (Sample.answer [Sample.pA; Sample.pB])
          (Sample.answer None) (Sample.answer [])
          Sample.together.

(** A host with one timer already running. *)
Definition busy_host : Lifecycle.Host :=
  {| Lifecycle.nextId := 5; Lifecycle.intervals := [(3, 250)]%nat;
     Lifecycle.sockets := []; Lifecycle.polls := 0 |}.

End Scenario.

(** * Properties *)

(** ** [formatUptime] *)

Lemma rne_bounds (n : Z) (d : positive) :
  2 * n - Zpos d <= 2 * Number.rne n d * Zpos d <= 2 * n + Zpos d.
Proof.
  unfold Number.rne.
  pose proof (Z.div_mod n (Zpos d) ltac:(lia)) as Hdm.
  pose proof (Z.mod_pos_bound n (Zpos d) ltac:(lia)) as Hm.
  set (f := n / Zpos d) in *. set (r := n mod Zpos d) in *.
  destruct (Z.compare_spec (2 * r) (Zpos d)) as [He | Hl | Hg].
  - destruct (Z.even f); nia.
  - nia.
  - nia.
Qed.

Lemma rne_exact (k : Z) (d : positive) : Number.rne (k * Zpos d) d = k.
Proof.
  unfold Number.rne.
  rewrite Z.mod_mul, Z.div_mul by lia. reflexivity.
Qed.

Lemma ilog2_spec (a b : positive) :
  let N := Z.log2 (Zpos b) + 1 in
  let L := Number.ilog2 a b + N in
  0 <= L /\ 2 ^ L * Zpos b <= Zpos a * 2 ^ N < 2 ^ (L + 1) * Zpos b.
Proof.
  intros N L. unfold L, Number.ilog2. fold N.
  replace (Z.log2 (Zpos a * 2 ^ N / Zpos b) - N + N)
    with (Z.log2 (Zpos a * 2 ^ N / Zpos b)) by lia.
  assert (HN : 0 <= N) by (pose proof (Z.log2_nonneg (Zpos b)); lia).
  assert (Hb : Zpos b < 2 ^ N).
  { unfold N. apply Z.log2_spec. lia. }
  assert (Hq : 1 <= Zpos a * 2 ^ N / Zpos b).
  { apply Z.div_le_lower_bound; nia. }
  pose proof (Z.log2_spec (Zpos a * 2 ^ N / Zpos b) ltac:(lia)) as [Hlo Hhi].
  set (Lg := Z.log2 (Zpos a * 2 ^ N / Zpos b)) in *.
  replace (Z.succ Lg) with (Lg + 1) in Hhi by lia.
  pose proof (Z.mul_div_le (Zpos a * 2 ^ N) (Zpos b) ltac:(lia)).
  pose proof (Z.mul_succ_div_gt (Zpos a * 2 ^ N) (Zpos b) ltac:(lia)).
  split; [apply Z.log2_nonneg |]. split; nia.
Qed.

Lemma pow2_pos (k : Z) : 0 <= k -> 0 < 2 ^ k.
Proof. intros. apply Z.pow_pos_nonneg; lia. Qed.

Lemma Qfloor_Qred (q : Q) : Qfloor (Qred q) = Qfloor q.
Proof. apply Qfloor_comp, Qred_correct. Qed.

Lemma Qceiling_Qred (q : Q) : Qceiling (Qred q) = Qceiling q.
Proof. apply Qceiling_comp, Qred_correct. Qed.

Lemma div_between (m t k : Z) : 0 < t -> k * t <= m < (k + 1) * t -> m / t = k.
Proof.
  intros Ht H. symmetry. apply (Z.div_unique m t k (m - k * t)); lia.
Qed.

(** The quotient of two naturals, the dividend below 2^53, rounds to a
    double with the same integer part. *)
Lemma round_pos_small (a b : positive) :
  Zpos a < 2 ^ 53 ->
  exists v, Number.round_pos a b = Number.Finite v
    /\ Qfloor v = Zpos a / Zpos b
    /\ (Zpos b <= 2 ^ 1022 -> Qceiling v = - (- Zpos a / Zpos b)).
Proof.
  intros Ha. unfold Number.round_pos.
  pose proof (ilog2_spec a b) as Hspec. cbv zeta in Hspec.
  set (N := Z.log2 (Zpos b) + 1) in *.
  set (E := Number.ilog2 a b) in *.
  destruct Hspec as (HL & Hlo & Hhi).
  assert (HN : 0 <= N) by (pose proof (Z.log2_nonneg (Zpos b)); lia).
  assert (HE : E <= 52).
  { destruct (Z_le_gt_dec E 52) as [|Hgt]; [assumption | exfalso].
    assert (2 ^ (53 + N) <= 2 ^ (E + N)) by (apply Z.pow_le_mono_r; lia).
    rewrite Z.pow_add_r in H by lia.
    pose proof (pow2_pos N HN). nia. }
  set (e := Z.max (E - 52) (- 1074)).
  assert (He : e <= 0) by lia.
  replace (Z.max 0 e) with 0 by lia.
  replace (Z.max 0 (- e)) with (- e) by lia.
  change (Z.to_pos (2 ^ 0)) with 1%positive.
  rewrite Pos.mul_1_r.
  set (t := 2 ^ (- e)).
  assert (Ht : 0 < t) by (apply pow2_pos; lia).
  rewrite Z2Pos.id by exact Ht.
  set (m := Number.rne (Zpos a * t) b).
  pose proof (rne_bounds (Zpos a * t) b) as Hm. fold m in Hm.
  set (k := Zpos a / Zpos b).
  pose proof (Z.mul_div_le (Zpos a) (Zpos b) ltac:(lia)) as Hk1.
  pose proof (Z.mul_succ_div_gt (Zpos a) (Zpos b) ltac:(lia)) as Hk2.
  fold k in Hk1, Hk2.
  assert (Hrange : k * t <= m < (k + 1) * t
                   /\ (Zpos b <= 2 ^ 1022 ->
                       (- (- Zpos a / Zpos b) - 1) * t < m
                       <= - (- Zpos a / Zpos b) * t)).
  { destruct (Z_le_gt_dec (- 1074) (E - 52)) as [Hnorm | Hsub].
    - (* normal range: the spacing of doubles is below 2/b *)
      assert (Hte : t = 2 ^ (52 - E)) by (unfold t, e; f_equal; lia).
      assert (Hb : Zpos b < 2 * t).
      { assert (Hp : 2 ^ (53 + N) = 2 * t * 2 ^ (E + N)).
        { rewrite Hte. replace (2 * 2 ^ (52 - E)) with (2 ^ (53 - E)).
          - rewrite <- Z.pow_add_r by lia. f_equal. lia.
          - replace (53 - E) with (1 + (52 - E)) by lia.
            rewrite Z.pow_add_r by lia. reflexivity. }
        rewrite Z.pow_add_r in Hp by lia.
        pose proof (pow2_pos N HN). pose proof (pow2_pos (E + N) HL). nia. }
      split; [nia |]. intros _.
      pose proof (Z.mul_div_le (- Zpos a) (Zpos b) ltac:(lia)) as Hc1.
      pose proof (Z.mul_succ_div_gt (- Zpos a) (Zpos b) ltac:(lia)) as Hc2.
      set (c := - Zpos a / Zpos b) in *. nia.
    - (* subnormal range *)
      assert (Hte : t = 2 ^ 1074) by (unfold t, e; f_equal; lia).
      assert (Hab : Zpos a * 2 ^ 1022 < Zpos b).
      { assert (2 ^ (E + N + 1 + 1022) <= 2 ^ N)
          by (apply Z.pow_le_mono_r; lia).
        rewrite Z.pow_add_r in H by lia.
        pose proof (pow2_pos N HN). pose proof (pow2_pos (E + N + 1)
                                                ltac:(lia)).
        assert (0 < 2 ^ 1022) by (apply pow2_pos; lia). nia. }
      assert (Hk0 : k = 0).
      { unfold k. apply Z.div_small.
        assert (1 <= 2 ^ 1022) by (apply (Z.pow_le_mono_r 2 0 1022); lia).
        nia. }
      assert (Hm52 : 0 <= m <= 2 ^ 52).
      { rewrite Hte in Hm.
        replace (2 ^ 1074) with (2 ^ 1022 * 2 ^ 52) in Hm
          by (rewrite <- Z.pow_add_r by lia; reflexivity).
        assert (0 < 2 ^ 52) by (apply pow2_pos; lia).
        assert (0 < 2 ^ 1022) by (apply pow2_pos; lia). nia. }
      split.
      + rewrite Hk0, Hte.
        assert (2 ^ 52 < 2 ^ 1074) by (apply Z.pow_lt_mono_r; lia). lia.
      + intros Hb. exfalso.
        assert (1 <= 2 ^ 1022) by (apply (Z.pow_le_mono_r 2 0 1022); lia).
        assert (0 < 2 ^ 1022) by lia. nia. }
  destruct Hrange as [Hfl Hce].
  assert (Hv : ((m * 1 # Z.to_pos t) == m # Z.to_pos t)%Q)
    by (now rewrite Z.mul_1_r).
  assert (Hover : Qle_bool (inject_Z (2 ^ 1024)) (Qred (m * 1 # Z.to_pos t))
                  = false).
  { apply Bool.not_true_is_false. rewrite Qle_bool_iff, Qred_correct, Hv.
    unfold Qle, inject_Z. cbn [Qnum Qden]. rewrite Z2Pos.id by exact Ht.
    assert (2 ^ 53 < 2 ^ 1024) by (apply Z.pow_lt_mono_r; lia).
    assert (k + 1 <= 2 ^ 53).
    { assert (k <= Zpos a) by (unfold k; apply Z.div_le_upper_bound; nia).
      lia. }
    nia. }
  rewrite Hover. eexists. split; [reflexivity |]. split.
  - rewrite Qfloor_Qred, (Qfloor_comp _ _ Hv). simpl.
    rewrite Z2Pos.id by exact Ht. now apply div_between.
  - intros Hb. specialize (Hce Hb).
    rewrite Qceiling_Qred, (Qceiling_comp _ _ Hv). unfold Qceiling. simpl.
    rewrite Z2Pos.id by exact Ht.
    rewrite (div_between (- m) t (- - (- Zpos a / Zpos b))) by lia. lia.
Qed.

(** The reduced form of a fraction has the smaller terms. *)
Lemma Qred_terms (q : Q) (a : Z) (b : positive) :
  (q == a # b)%Q -> 0 <= a ->
  0 <= Qnum (Qred q) <= a /\ Zpos (Qden (Qred q)) <= Zpos b.
Proof.
  intros Hq Ha.
  pose proof (gcd_Qred q) as Hg.
  assert (He : (Qred q == a # b)%Q) by (now rewrite Qred_correct).
  destruct (Qred q) as [a' b']. unfold Qeq in He. simpl in *.
  assert (Ha' : 0 <= a') by nia.
  assert (Hda : (a' | a)).
  { apply (Z.gauss a' (Zpos b') a); [| exact Hg].
    exists (Zpos b). lia. }
  assert (Hdb : (Zpos b' | Zpos b)).
  { apply (Z.gauss (Zpos b') a' (Zpos b)); [| now rewrite Z.gcd_comm].
    exists a. lia. }
  repeat split.
  - exact Ha'.
  - destruct (Z.eq_dec a 0) as [-> | Hne].
    + destruct Hda as [x Hx]. nia.
    + apply Z.divide_pos_le; [lia | exact Hda].
  - apply Z.divide_pos_le; [lia | exact Hdb].
Qed.

Lemma floor_round_nonneg (q : Q) (a : Z) (b : positive) :
  (q == a # b)%Q -> 0 <= a < 2 ^ 53 ->
  exists v, Number.round q = Number.Finite v /\ Qfloor v = Qfloor q.
Proof.
  intros Hq Ha.
  destruct (Qred_terms q a b Hq ltac:(lia)) as [Hnum _].
  unfold Number.round.
  rewrite <- (Qfloor_Qred q).
  destruct (Qred q) as [a' b']. simpl in *.
  destruct a' as [| p | p]; [| | lia].
  - exists 0%Q. split; reflexivity.
  - destruct (round_pos_small p b' ltac:(lia)) as (v & Hv & Hfl & _).
    exists v. split; assumption.
Qed.

Lemma floor_round_neg (q : Q) (a : Z) (b : positive) :
  (q == a # b)%Q -> - 2 ^ 53 < a < 0 -> Zpos b <= 2 ^ 1022 ->
  exists v, Number.round q = Number.Finite v /\ Qfloor v = Qfloor q.
Proof.
  intros Hq Ha Hb.
  assert (Hq' : (- q == (- a) # b)%Q) by (rewrite Hq; reflexivity).
  destruct (Qred_terms (- q) (- a) b Hq' ltac:(lia)) as [Hnum Hden].
  unfold Number.round.
  rewrite <- (Qfloor_Qred q).
  rewrite Qred_opp in Hnum, Hden.
  assert (Hne : ~ (Qred q == 0)%Q).
  { rewrite Qred_correct, Hq. unfold Qeq. simpl. lia. }
  destruct (Qred q) as [a' b']. simpl in *.
  destruct a' as [| p | p]; [| lia |].
  - exfalso. apply Hne. reflexivity.
  - destruct (round_pos_small p b' ltac:(lia)) as (v & Hv & _ & Hce).
    rewrite Hv. exists (- v)%Q. split; [reflexivity |].
    specialize (Hce ltac:(lia)). unfold Qceiling in Hce.
    change (- Z.pos p) with (Z.neg p) in Hce. lia.
Qed.

Lemma rne_one (x : Z) : Number.rne x 1 = x.
Proof. rewrite <- (rne_exact x 1) at 2. now rewrite Z.mul_1_r. Qed.

(** Whole numbers with at most 53 significant bits are doubles. *)
Lemma round_pos_exact (m g : Z) :
  0 < m < 2 ^ 53 -> 0 <= g <= 971 ->
  Number.round_pos (Z.to_pos (m * 2 ^ g)) 1
  = Number.Finite (inject_Z (m * 2 ^ g)).
Proof.
  intros Hm Hg.
  assert (Hpg : 0 < 2 ^ g) by (apply pow2_pos; lia).
  set (a := m * 2 ^ g). assert (Hapos : 0 < a) by (unfold a; nia).
  unfold Number.round_pos.
  assert (HE : Number.ilog2 (Z.to_pos a) 1 = Z.log2 m + g).
  { unfold Number.ilog2. rewrite Z2Pos.id by exact Hapos.
    change (Z.log2 1 + 1) with 1. rewrite Z.div_1_r.
    change (2 ^ 1) with 2. rewrite (Z.mul_comm a 2).
    rewrite Z.log2_double by exact Hapos.
    unfold a. rewrite Z.log2_mul_pow2 by lia. lia. }
  rewrite HE.
  assert (Hlm : 0 <= Z.log2 m <= 52).
  { split; [apply Z.log2_nonneg |].
    assert (Z.log2 m < 53) by (apply Z.log2_lt_pow2; lia). lia. }
  replace (Z.max (Z.log2 m + g - 52) (- 1074)) with (Z.log2 m + g - 52)
    by lia.
  set (e := Z.log2 m + g - 52).
  rewrite Pos.mul_1_l, Z2Pos.id by exact Hapos.
  assert (Hval : forall x : Q, (x == inject_Z a)%Q -> Qred x = inject_Z a).
  { intros x Hx.
    rewrite <- (Qred_identity (inject_Z a)) by (simpl; apply Z.gcd_1_r).
    now apply Qred_complete. }
  assert (Hfin : Qle_bool (inject_Z (2 ^ 1024)) (inject_Z a) = false).
  { apply Bool.not_true_is_false. rewrite Qle_bool_iff, <- Zle_Qle.
    assert (Hle : 2 ^ g <= 2 ^ 971) by (apply Z.pow_le_mono_r; lia).
    assert (Heq : 2 ^ 53 * 2 ^ 971 = 2 ^ 1024)
      by (rewrite <- Z.pow_add_r by lia; reflexivity).
    unfold a. nia. }
  destruct (Z_le_gt_dec e 0) as [He | He].
  - replace (Z.max 0 e) with 0 by lia.
    replace (Z.max 0 (- e)) with (- e) by lia.
    change (Z.to_pos (2 ^ 0)) with 1%positive.
    assert (Ht : 0 < 2 ^ (- e)) by (apply pow2_pos; lia).
    rewrite Z2Pos.id by exact Ht.
    rewrite rne_one.
    rewrite Hval; [now rewrite Hfin |].
    unfold Qeq, inject_Z. cbn [Qnum Qden].
    rewrite Z2Pos.id by exact Ht. lia.
  - replace (Z.max 0 e) with e by lia.
    replace (Z.max 0 (- e)) with 0 by lia.
    change (Z.to_pos (2 ^ 0)) with 1%positive.
    assert (Ht : 0 < 2 ^ e) by (apply pow2_pos; lia).
    assert (Hdiv : a = m * 2 ^ (g - e) * Zpos (Z.to_pos (2 ^ e))).
    { rewrite Z2Pos.id by exact Ht.
      unfold a. rewrite <- Z.mul_assoc, <- Z.pow_add_r by lia.
      do 2 f_equal. lia. }
    rewrite Z.mul_1_r.
    assert (Hr : Number.rne a (Z.to_pos (2 ^ e)) = m * 2 ^ (g - e))
      by (rewrite Hdiv at 1; apply rne_exact).
    rewrite Hr.
    rewrite Hval; [now rewrite Hfin |].
    unfold Qeq, inject_Z. cbn [Qnum Qden]. lia.
Qed.

Lemma of_int_exact (m g : Z) :
  0 <= m < 2 ^ 53 -> 0 <= g <= 971 ->
  Number.of_int (m * 2 ^ g) = Number.Finite (inject_Z (m * 2 ^ g)).
Proof.
  intros Hm Hg. unfold Number.of_int, Number.round.
  rewrite Qred_identity by (simpl; apply Z.gcd_1_r).
  assert (Hpg : 0 < 2 ^ g) by (apply pow2_pos; lia).
  destruct (Z.eq_dec m 0) as [-> | Hne]; [reflexivity |].
  simpl Qnum. simpl Qden.
  pose proof (round_pos_exact m g ltac:(lia) Hg) as H.
  destruct (m * 2 ^ g) as [| p | p] eqn:Ep; try nia.
  exact H.
Qed.

Lemma of_int_safe (n : Z) :
  0 <= n <= Number.MAX_SAFE_INTEGER ->
  Number.of_int n = Number.Finite (inject_Z n).
Proof.
  intros Hn. unfold Number.MAX_SAFE_INTEGER in Hn.
  replace n with (n * 2 ^ 0) by (change (2 ^ 0) with 1; lia).
  apply of_int_exact; lia.
Qed.

Lemma ilog2_int (a : positive) : Number.ilog2 a 1 = Z.log2 (Zpos a).
Proof.
  unfold Number.ilog2. change (Z.log2 1 + 1) with 1.
  rewrite Z.div_1_r. change (2 ^ 1) with 2.
  rewrite (Z.mul_comm (Zpos a) 2), Z.log2_double by lia. lia.
Qed.

(** A whole number from 2^53 up rounds to a double from 2^53 up. *)
Lemma round_pos_large (a : positive) :
  2 ^ 53 <= Zpos a ->
  match Number.round_pos a 1 with
  | Number.Finite v => (inject_Z (2 ^ 53) <= v)%Q
  | _ => True
  end.
Proof.
  intros Ha. unfold Number.round_pos. rewrite ilog2_int.
  assert (HE : 53 <= Z.log2 (Zpos a)) by (apply Z.log2_le_pow2; lia).
  set (E := Z.log2 (Zpos a)) in *.
  replace (Z.max (E - 52) (- 1074)) with (E - 52) by lia.
  replace (Z.max 0 (E - 52)) with (E - 52) by lia.
  replace (Z.max 0 (- (E - 52))) with 0 by lia.
  change (Z.to_pos (2 ^ 0)) with 1%positive.
  rewrite Z.mul_1_r, Pos.mul_1_l.
  assert (Hu : 0 < 2 ^ (E - 52)) by (apply pow2_pos; lia).
  set (u := Z.to_pos (2 ^ (E - 52))).
  assert (Hue : Zpos u = 2 ^ (E - 52)) by (unfold u; now rewrite Z2Pos.id).
  pose proof (rne_bounds (Zpos a) u) as Hm.
  set (m := Number.rne (Zpos a) u) in *.
  destruct (Qle_bool _ _); [exact I |].
  rewrite Qred_correct. unfold Qle, inject_Z. cbn [Qnum Qden].
  rewrite !Z.mul_1_r.
  assert (Hlo : 2 ^ 52 * Zpos u <= Zpos a).
  { rewrite Hue, <- Z.pow_add_r by lia.
    replace (52 + (E - 52)) with E by lia.
    apply Z.log2_spec. lia. }
  assert (H2 : 2 <= Zpos u).
  { rewrite Hue. apply (Z.pow_le_mono_r 2 1 (E - 52)); lia. }
  assert (H52 : 2 ^ 53 = 2 * 2 ^ 52) by reflexivity.
  rewrite H52. remember (2 ^ 52) as K eqn:EK.
  assert (HK : 0 < K) by (subst K; apply pow2_pos; lia).
  assert (Hm52 : K <= m).
  { destruct (Z_le_gt_dec K m) as [| Hgt]; [assumption | exfalso].
    assert (2 * m * Zpos u <= 2 * (K - 1) * Zpos u)
      by (apply Z.mul_le_mono_nonneg_r; lia).
    lia. }
  assert (K * 2 <= m * Zpos u) by (apply Z.mul_le_mono_nonneg; lia).
  lia.
Qed.

Lemma round_trips_safe (c n : Z) :
  0 < c -> 0 <= n < 2 ^ 53 -> Number.round_trips c n = true -> c = n.
Proof.
  intros Hc Hn. unfold Number.round_trips.
  destruct (Z_lt_le_dec c (2 ^ 53)) as [Hlt | Hge].
  - pose proof (of_int_safe c) as Hex. unfold Number.of_int in Hex.
    rewrite Hex by (unfold Number.MAX_SAFE_INTEGER; lia).
    intros H. apply Qeq_bool_eq in H. unfold Qeq in H. simpl in H. lia.
  - unfold Number.round.
    rewrite Qred_identity by (simpl; apply Z.gcd_1_r).
    simpl Qnum. simpl Qden.
    destruct c as [| p | p]; try lia.
    pose proof (round_pos_large p Hge) as Hl.
    destruct (Number.round_pos p 1) as [| s | v]; try discriminate.
    intros H. apply Qeq_bool_eq in H. rewrite H in Hl.
    rewrite <- Zle_Qle in Hl. lia.
Qed.

Lemma candidate_safe (n : Z) (z : nat) (c : Z) :
  0 <= n < 2 ^ 53 -> Number.candidate n z = Some c -> c = n.
Proof.
  intros Hn. unfold Number.candidate.
  assert (Hp : 0 < 10 ^ Z.of_nat z) by (apply Z.pow_pos_nonneg; lia).
  set (p := 10 ^ Z.of_nat z) in *.
  assert (Hlo : 0 <= n / p * p).
  { pose proof (Z.div_pos n p ltac:(lia) Hp). nia. }
  set (lo := n / p * p) in *.
  destruct ((0 <? lo) && Number.round_trips lo n)%bool eqn:Elo;
    destruct (Number.round_trips (lo + p) n) eqn:Ehi.
  - apply andb_prop in Elo as [Hpos Elo]. apply Z.ltb_lt in Hpos.
    apply round_trips_safe in Elo; [| lia | exact Hn].
    apply round_trips_safe in Ehi; [| lia | exact Hn]. lia.
  - apply andb_prop in Elo as [Hpos Elo]. apply Z.ltb_lt in Hpos.
    apply round_trips_safe in Elo; [| lia | exact Hn].
    intros [= <-]. exact Elo.
  - apply round_trips_safe in Ehi; [| lia | exact Hn].
    intros [= <-]. exact Ehi.
  - discriminate.
Qed.

Lemma shortest_safe (n : Z) (z : nat) :
  0 <= n < 2 ^ 53 -> Number.shortest n z = n.
Proof.
  intros Hn. induction z as [| z IH]; simpl.
  - destruct (Number.candidate n 0) as [c |] eqn:Ec; [| reflexivity].
    now apply (candidate_safe n 0 c Hn).
  - destruct (Number.candidate n (S z)) as [c |] eqn:Ec; [| exact IH].
    now apply (candidate_safe n (S z) c Hn).
Qed.

Lemma digits_safe (n : Z) :
  0 <= n < 2 ^ 53 -> Number.digits n = Number.decimal n.
Proof.
  intros Hn. unfold Number.digits.
  destruct (Z.eqb_spec n 0) as [-> | Hne]; [reflexivity |].
  rewrite shortest_safe by exact Hn.
  assert (H : (n <? 10 ^ 21) = true).
  { apply Z.ltb_lt. assert (2 ^ 53 < 10 ^ 21) by reflexivity. lia. }
  now rewrite H.
Qed.

Lemma decimal_neg (n : Z) :
  n < 0 -> Number.decimal n = ("-" ++ Number.decimal (- n))%string.
Proof.
  intros Hn. destruct n as [| p | p]; try lia. reflexivity.
Qed.

(** Whole numbers of at most 53 bits print as their decimal numeral. *)
Lemma to_string_safe (n : Z) :
  - 2 ^ 53 < n < 2 ^ 53 ->
  Number.to_string (Number.WInt n) = Number.decimal n.
Proof.
  intros Hn. unfold Number.to_string.
  destruct (Z.ltb_spec n 0) as [Hneg | Hpos].
  - rewrite digits_safe by lia. symmetry. now apply decimal_neg.
  - apply digits_safe. lia.
Qed.

Lemma round_comp (q q' : Q) : (q == q')%Q -> Number.round q = Number.round q'.
Proof. intros H. unfold Number.round. now rewrite (Qred_complete q q' H). Qed.

Lemma of_int_3600 : Number.of_int 3600 = Number.Finite 3600.
Proof. vm_compute. reflexivity. Qed.

Lemma of_int_60 : Number.of_int 60 = Number.Finite 60.
Proof. vm_compute. reflexivity. Qed.

Lemma trunc_nonneg (q : Q) : (0 <= q)%Q -> Number.trunc q = Qfloor q.
Proof.
  intros Hq. unfold Number.trunc.
  destruct (Qlt_le_dec q 0) as [Hneg | _]; [| reflexivity].
  exfalso. apply (Qlt_not_le _ _ Hneg Hq).
Qed.

Lemma trunc_neg (q : Q) : (q < 0)%Q -> Number.trunc q = Qceiling q.
Proof.
  intros Hq. unfold Number.trunc.
  destruct (Qlt_le_dec q 0) as [_ | Hpos]; [reflexivity |].
  exfalso. apply (Qlt_not_le _ _ Hq Hpos).
Qed.

Lemma trunc_comp (q q' : Q) : (q == q')%Q -> Number.trunc q = Number.trunc q'.
Proof.
  intros H. unfold Number.trunc.
  destruct (Qlt_le_dec q 0) as [Hq | Hq], (Qlt_le_dec q' 0) as [Hq' | Hq'].
  - now apply Qceiling_comp.
  - exfalso. rewrite H in Hq. apply (Qlt_not_le _ _ Hq Hq').
  - exfalso. rewrite H in Hq. apply (Qlt_not_le _ _ Hq' Hq).
  - now apply Qfloor_comp.
Qed.

Lemma div_finite (p q : Q) :
  Number.is_zero q = false ->
  Number.div (Number.Finite p) (Number.Finite q) = Number.round (p / q).
Proof. intros H. unfold Number.div. now rewrite H. Qed.

Lemma rem_finite (p q : Q) :
  Number.is_zero q = false ->
  Number.rem (Number.Finite p) (Number.Finite q)
  = Number.Finite (Qred (p - q * inject_Z (Number.trunc (p / q)))).
Proof. intros H. unfold Number.rem. now rewrite H. Qed.

(** The hours and minutes of a non-negative number with a numerator
    below 2^53. *)
Lemma hours_minutes_nonneg (x : Q) (a : Z) (b : positive) :
  (x == a # b)%Q -> 0 <= a < 2 ^ 53 ->
  Number.Math_floor (Number.div (Number.Finite x) (Number.of_int 3600))
  = Number.WInt (a / (Zpos b * 3600))
  /\ Number.Math_floor
       (Number.div (Number.rem (Number.Finite x) (Number.of_int 3600))
                   (Number.of_int 60))
     = Number.WInt ((a - 3600 * Zpos b * (a / (Zpos b * 3600)))
                    / (Zpos b * 60)).
Proof.
  intros Hx Ha. rewrite of_int_3600, of_int_60.
  assert (Hq : (x / 3600 == a # (b * 3600))%Q).
  { rewrite Hx. unfold Qeq, Qdiv, Qmult, Qinv. simpl. lia. }
  set (k := a / (Zpos b * 3600)).
  assert (Hk : Qfloor (x / 3600) = k).
  { rewrite (Qfloor_comp _ _ Hq). reflexivity. }
  assert (Hk0 : 0 <= k) by (apply Z.div_pos; lia).
  assert (Hkm : 3600 * Zpos b * k <= a).
  { pose proof (Z.mul_div_le a (Zpos b * 3600) ltac:(lia)). fold k in H. lia. }
  split.
  - rewrite div_finite by reflexivity.
    destruct (floor_round_nonneg _ a (b * 3600) Hq Ha) as (v & -> & Hv).
    simpl. now rewrite Hv, Hk.
  - rewrite rem_finite, div_finite by reflexivity.
    rewrite trunc_nonneg.
    2:{ rewrite Hq. unfold Qle. simpl. lia. }
    rewrite Hk.
    set (r := Qred (x - 3600 * inject_Z k)).
    assert (Hr : (r / 60 == (a - 3600 * Zpos b * k) # (b * 60))%Q).
    { unfold r. rewrite Qred_correct, Hx.
      unfold Qeq, Qdiv, Qmult, Qinv, Qminus, Qplus, Qopp, inject_Z.
      cbn [Qnum Qden]. rewrite ?Pos2Z.inj_mul. ring. }
    destruct (floor_round_nonneg _ _ _ Hr ltac:(nia)) as (v & -> & Hv).
    simpl. rewrite Hv, (Qfloor_comp _ _ Hr). reflexivity.
Qed.

Lemma of_int_signed (n : Z) :
  - 2 ^ 53 < n < 2 ^ 53 -> Number.of_int n = Number.Finite (inject_Z n).
Proof.
  intros Hn. destruct (Z_lt_le_dec n 0) as [Hneg | Hpos].
  - pose proof (of_int_safe (- n)) as H. unfold Number.MAX_SAFE_INTEGER in H.
    specialize (H ltac:(lia)).
    unfold Number.of_int, Number.round in *.
    rewrite Qred_identity in * by (simpl; apply Z.gcd_1_r).
    destruct n as [| p | p]; try lia. simpl in *. now rewrite H.
  - apply of_int_safe. unfold Number.MAX_SAFE_INTEGER. lia.
Qed.

(** The hours and minutes of a negative whole number above -2^53. *)
Lemma hours_minutes_neg (T : Z) :
  0 < T < 2 ^ 53 ->
  Number.Math_floor
    (Number.div (Number.Finite (inject_Z (- T))) (Number.of_int 3600))
  = Number.WInt (- T / 3600)
  /\ Number.Math_floor
       (Number.div (Number.rem (Number.Finite (inject_Z (- T)))
                               (Number.of_int 3600))
                   (Number.of_int 60))
     = Number.WInt (- (T mod 3600) / 60).
Proof.
  intros HT. rewrite of_int_3600, of_int_60.
  assert (Hq : (inject_Z (- T) / 3600 == (- T) # 3600)%Q).
  { unfold Qeq, Qdiv, Qmult, Qinv, inject_Z. cbn [Qnum Qden]. lia. }
  split.
  - rewrite div_finite by reflexivity.
    destruct (floor_round_neg _ (- T) 3600 Hq ltac:(lia))
      as (v & -> & Hv).
    { assert (2 ^ 12 <= 2 ^ 1022) by (apply Z.pow_le_mono_r; lia).
      change (2 ^ 12) with 4096 in H. lia. }
    simpl. now rewrite Hv, (Qfloor_comp _ _ Hq).
  - rewrite rem_finite, div_finite by reflexivity.
    rewrite trunc_neg.
    2:{ rewrite Hq. unfold Qlt. simpl. lia. }
    assert (Hc : Qceiling (inject_Z (- T) / 3600) = - (T / 3600)).
    { rewrite (Qceiling_comp _ _ Hq). unfold Qceiling. simpl.
      rewrite Z.opp_involutive. reflexivity. }
    rewrite Hc.
    set (r := Qred (inject_Z (- T) - 3600 * inject_Z (- (T / 3600)))).
    assert (Hr : (r / 60 == (- (T mod 3600)) # 60)%Q).
    { unfold r. rewrite Qred_correct.
      unfold Qeq, Qdiv, Qmult, Qinv, Qminus, Qplus, Qopp, inject_Z.
      cbn [Qnum Qden]. rewrite (Z.mod_eq T 3600) by lia.
      rewrite ?Pos2Z.inj_mul. ring. }
    pose proof (Z.mod_pos_bound T 3600 ltac:(lia)) as Hm.
    destruct (Z.eq_dec (T mod 3600) 0) as [H0 | Hne].
    + rewrite H0 in *.
      destruct (floor_round_nonneg _ 0 60 Hr ltac:(lia)) as (v & -> & Hv).
      simpl. now rewrite Hv, (Qfloor_comp _ _ Hr).
    + destruct (floor_round_neg _ _ 60 Hr ltac:(lia)) as (v & -> & Hv).
      { assert (2 ^ 6 <= 2 ^ 1022) by (apply Z.pow_le_mono_r; lia).
        change (2 ^ 6) with 64 in H. lia. }
      simpl. now rewrite Hv, (Qfloor_comp _ _ Hr).
Qed.

(** [formatUptime] on the whole numbers of at most 53 bits. *)
Lemma formatUptime_int (S : Z) :
  - 2 ^ 53 < S < 2 ^ 53 ->
  formatUptime (Number.of_int S)
  = (Number.decimal (S / 3600) ++ "h "
     ++ Number.decimal (Z.rem S 3600 / 60) ++ "m")%string.
Proof.
  intros HS. rewrite of_int_signed by exact HS. unfold formatUptime.
  destruct (Z_lt_le_dec S 0) as [Hneg | Hpos].
  - replace S with (- - S) at 1 2 by lia.
    destruct (hours_minutes_neg (- S) ltac:(lia)) as [-> ->].
    rewrite !to_string_safe.
    + replace (- - S) with S by lia.
      replace (- (- S mod 3600)) with (Z.rem S 3600); [reflexivity |].
      replace S with (- - S) at 1 by lia.
      rewrite Z.rem_opp_l, Z.rem_mod_nonneg by lia. reflexivity.
    + pose proof (Z.mod_pos_bound (- S) 3600 ltac:(lia)).
      assert (- 2 ^ 53 < - 3600) by reflexivity.
      assert (- 3600 <= - (- S mod 3600) / 60 <= 0)
        by (split; [apply Z.div_le_lower_bound | apply Z.div_le_upper_bound];
            lia).
      lia.
    + assert (0 < 2 ^ 53) by reflexivity.
      assert (- 2 ^ 53 + 1 <= - - S / 3600 <= 0)
        by (split; [apply Z.div_le_lower_bound | apply Z.div_le_upper_bound];
            lia).
      lia.
  - destruct (hours_minutes_nonneg (inject_Z S) S 1 ltac:(reflexivity)
                ltac:(lia)) as [-> ->].
    rewrite !to_string_safe.
    + rewrite Z.rem_mod_nonneg by lia.
      replace (Z.pos 1 * 3600) with 3600 by reflexivity.
      replace (Z.pos 1 * 60) with 60 by reflexivity.
      replace (S - 3600 * Z.pos 1 * (S / 3600)) with (S mod 3600)
        by (rewrite (Z.mod_eq S 3600) by lia; ring).
      reflexivity.
    + replace (Z.pos 1 * 3600) with 3600 by reflexivity.
      replace (Z.pos 1 * 60) with 60 by reflexivity.
      replace (S - 3600 * Z.pos 1 * (S / 3600)) with (S mod 3600)
        by (rewrite (Z.mod_eq S 3600) by lia; ring).
      pose proof (Z.mod_pos_bound S 3600 ltac:(lia)).
      assert (0 <= S mod 3600 / 60 <= 3600)
        by (split; [apply Z.div_pos | apply Z.div_le_upper_bound]; lia).
      assert (3600 < 2 ^ 53) by reflexivity. lia.
    + replace (Z.pos 1 * 3600) with 3600 by reflexivity.
      assert (0 <= S / 3600 <= S)
        by (split; [apply Z.div_pos | apply Z.div_le_upper_bound]; lia).
      lia.
Qed.

Lemma formatUptime_comp (x x' : Q) :
  (x == x')%Q ->
  formatUptime (Number.Finite x) = formatUptime (Number.Finite x').
Proof.
  intros H. unfold formatUptime. rewrite of_int_3600, of_int_60.
  rewrite !rem_finite, !div_finite by reflexivity.
  assert (Hq : (x / 3600 == x' / 3600)%Q) by (now rewrite H).
  rewrite (round_comp _ _ Hq), (trunc_comp _ _ Hq).
  assert (Hr : (x - 3600 * inject_Z (Number.trunc (x' / 3600))
                == x' - 3600 * inject_Z (Number.trunc (x' / 3600)))%Q)
    by (now rewrite H).
  now rewrite (Qred_complete _ _ Hr).
Qed.


(** C2, as stated, fails beyond the safe integers, where the quotient by
    3600 is rounded to a double before [Math.floor] sees it: for the
    whole number of seconds 253327479039593984, itself a double, the
    hours shown are 70368744177665 and not floor(S/3600), which is
    70368744177664. *)
Lemma formatUptime_rounds_large_quotient :
  0 <= 253327479039593984
  /\ Number.of_int 253327479039593984
     = Number.Finite (inject_Z 253327479039593984)
  /\ formatUptime (Number.of_int 253327479039593984)
     = "70368744177665h 59m"%string
  /\ (Number.decimal (253327479039593984 / 3600) ++ "h "
      ++ Number.decimal ((253327479039593984 mod 3600) / 60) ++ "m")%string
     = "70368744177664h 59m"%string
  /\ formatUptime (Number.of_int 253327479039593984)
     <> (Number.decimal (253327479039593984 / 3600) ++ "h "
         ++ Number.decimal ((253327479039593984 mod 3600) / 60)
         ++ "m")%string.
Proof.
  split; [lia |].
  split; [vm_compute; reflexivity |].
  split; [vm_compute; reflexivity |].
  split; [vm_compute; reflexivity |].
  vm_compute. discriminate.
Qed.

(** C2, amended. For every integer [S] from 0 to
    [Number.MAX_SAFE_INTEGER], [formatUptime S] is the decimal numeral of
    [floor(S/3600)], then ["h "], then the decimal numeral of
    [floor((S mod 3600)/60)], then ["m"]; so 3661 gives ["1h 1m"], 59 and
    0 give ["0h 0m"], and 7200 gives ["2h 0m"]. *)
Theorem formatUptime_correct :
  (forall S : Z, 0 <= S <= Number.MAX_SAFE_INTEGER ->
     formatUptime (Number.of_int S)
     = (Number.decimal (S / 3600) ++ "h "
        ++ Number.decimal ((S mod 3600) / 60) ++ "m")%string)
  /\ formatUptime (Number.of_int 3661) = "1h 1m"%string
  /\ formatUptime (Number.of_int 59) = "0h 0m"%string
  /\ formatUptime (Number.of_int 7200) = "2h 0m"%string
  /\ formatUptime (Number.of_int 0) = "0h 0m"%string.
Proof.
  split; [| repeat split; vm_compute; reflexivity].
  intros S HS. unfold Number.MAX_SAFE_INTEGER in HS.
  rewrite formatUptime_int by lia.
  now rewrite Z.rem_mod_nonneg by lia.
Qed.

Lemma formatUptime_correct_witness :
  0 <= 86399 <= Number.MAX_SAFE_INTEGER
  /\ formatUptime (Number.of_int 86399) = "23h 59m"%string.
Proof.
  assert (H : 0 <= 86399 <= Number.MAX_SAFE_INTEGER)
    by (unfold Number.MAX_SAFE_INTEGER; lia).
  split; [exact H |].
  exact (proj1 formatUptime_correct 86399 H).
Defined.

(** The model on values of the language that are known by heart: the
    quotient of 10^21 by 3600 is the double 277777777777777792, printed
    with the fewest digits that read back as it; from 10^21 on numbers
    print in exponent notation; infinity divides to infinity and has no
    remainder. *)
Example formatUptime_1e21 :
  formatUptime (Number.of_int (10 ^ 21)) = "277777777777777800h 46m"%string.
Proof. vm_compute. reflexivity. Qed.

Example formatUptime_exponent :
  formatUptime (Number.of_int (3600 * 10 ^ 21)) = "1e+21h 37m"%string.
Proof. vm_compute. reflexivity. Qed.

Example formatUptime_Infinity :
  formatUptime (Number.Infinity false) = "Infinityh NaNm"%string.
Proof. vm_compute. reflexivity. Qed.

Example round_third :
  Number.div (Number.Finite 1) (Number.Finite 3)
  = Number.Finite (6004799503160661 # 18014398509481984).
Proof. vm_compute. reflexivity. Qed.

Example round_overflow :
  Number.round (inject_Z (2 ^ 1024 - 2 ^ 970)) = Number.Infinity false
  /\ Number.round (inject_Z (2 ^ 1024 - 2 ^ 970 - 1))
     = Number.Finite (inject_Z (2 ^ 1024 - 2 ^ 971)).
Proof. split; vm_compute; reflexivity. Qed.

Example round_underflow :
  Number.round (1 # 2 ^ 1075) = Number.Finite 0
  /\ Number.round (3 # 2 ^ 1075) = Number.Finite (1 # 2 ^ 1073).
Proof. split; vm_compute; reflexivity. Qed.

(** On the sample operands, rounding and division agree with the
    Standard Library's specification of binary64: integers below and
    above [2 ^ 53], ties, subnormal results, and overflow. *)
Example of_int_agrees_with_SpecFloat :
  Forall (fun n => of_spec (binary64 n 0) = Number.of_int n) sample_integers.
Proof.
  unfold sample_integers.
  repeat (apply List.Forall_cons; [vm_compute; reflexivity |]).
  apply List.Forall_nil.
Qed.

Example div_agrees_with_SpecFloat :
  Forall (fun p => of_spec (SFdiv 53 1024 (fst p) (snd p))
                   = Number.div (of_spec (fst p)) (of_spec (snd p)))
         sample_operands.
Proof.
  unfold sample_operands.
  repeat (apply List.Forall_cons; [vm_compute; reflexivity |]).
  apply List.Forall_nil.
Qed.

(** ** Reading a settled request *)

Lemma payload_Some {T : Type} (p : Settled T) (v : T) :
  payload p = Some v -> p = Fulfilled (mkResponse true (Some v)).
Proof.
  destruct p as [[[] j] |]; simpl; intros H; try discriminate.
  now subst j.
Qed.

Lemma refused_true {T : Type} (p : Settled T) :
  refused p = true -> exists j, p = Fulfilled (mkResponse false j).
Proof.
  destruct p as [[[] j] |]; simpl; intros H; try discriminate.
  now exists j.
Qed.

Lemma rejected_true {T : Type} (p : Settled T) :
  rejected p = true -> p = Rejected.
Proof. destruct p; simpl; intros H; [discriminate | reflexivity]. Qed.

Lemma rejected_false {T : Type} (p : Settled T) :
  rejected p = false -> exists r, p = Fulfilled r.
Proof. destruct p as [r |]; simpl; intros H; [now exists r | discriminate]. Qed.

Lemma passes_true {T : Type} (p : Settled T) :
  passes p = true ->
  (exists j, p = Fulfilled (mkResponse false j))
  \/ (exists v, p = Fulfilled (mkResponse true (Some v))).
Proof.
  destruct p as [[[] [v |]] |]; simpl; intros H; try discriminate.
  - right. now exists v.
  - left. now exists (Some v).
  - left. now exists None.
Qed.

(** Splits a cycle into its four requests and each request into its cases. *)
Ltac settle c :=
  let cf := fresh "cf" in
  let pf := fresh "pf" in
  let sf := fresh "sf" in
  let ef := fresh "ef" in
  let t := fresh "t" in
  destruct c as [cf pf sf ef t];
  destruct cf as [[[] [?|]]|], pf as [[[] [?|]]|],
           sf as [[[] [?|]]|], ef as [[[] [?|]]|].

(** Turns [is_Some (delivered r c)] into the shape of the request. *)
Ltac use_delivered H :=
  let E := fresh "E" in
  let x := fresh "x" in
  simpl in H;
  match type of H with
  | is_Some (_ <$> payload ?p) =>
      destruct (payload p) eqn:E;
      [ apply payload_Some in E; subst; clear H
      | destruct H as [x H]; discriminate H ]
  end.

(** The same for [r] out of a hypothesis on all resources but one; does
    nothing when [r] is that one. *)
Ltac take_delivered Hothers r :=
  try (let H := fresh "H" in
       pose proof (Hothers r ltac:(discriminate)) as H; use_delivered H).

(** ** Updates leave the other cells alone *)

Lemma apply_effect_frame (r : Resource) (e : Effect) (s : AppState) :
  setter_of e <> Some r -> cell r (apply_effect s e) = cell r s.
Proof. destruct e, r; simpl; intros H; congruence. Qed.

Lemma commit_frame (r : Resource) (l : list Effect) (s : AppState) :
  r ∉ omap setter_of l -> cell r (commit l s) = cell r s.
Proof.
  unfold commit. revert s.
  induction l as [| e l IH]; intros s Hr; simpl; [reflexivity |].
  simpl in Hr.
  rewrite IH.
  - apply apply_effect_frame. intros He. rewrite He in Hr.
    apply Hr. left.
  - intros Hin. apply Hr. destruct (setter_of e); [right |]; exact Hin.
Qed.

(** [fetchData] never rejects: its [catch] takes every error. *)
Lemma fetchData_returns (c : Cycle) : outcome (fetchData c) = Returned tt.
Proof. settle c; reflexivity. Qed.

(** ** One rejected request skips the whole cycle *)

(** C9. In every poll cycle in which one of the four [fetch] calls
    rejects, no setter is called: the cycle only logs the error, and all
    the cells (cameras, predictions, status, errors) are as before. *)
Theorem poll_rejection_skips_all (c : Cycle) (s : AppState) :
  (exists r, rejected_at r c = true) ->
  effects (fetchData c) = [ConsoleError "Error fetching data:" TypeError]
  /\ setter_order c = []
  /\ poll c s = s.
Proof.
  intros [r Hr].
  assert (He : effects (fetchData c)
               = [ConsoleError "Error fetching data:" TypeError]).
  { destruct c as [cf pf sf ef t].
    destruct r; simpl in Hr; apply rejected_true in Hr; subst;
      repeat match goal with p : Settled _ |- _ => destruct p end;
      reflexivity. }
  unfold setter_order, poll. rewrite He. repeat split.
Qed.

Lemma poll_rejection_skips_all_witness :
  poll Sample.cameras_rejected Sample.before = Sample.before.
Proof.
  apply (poll_rejection_skips_all Sample.cameras_rejected Sample.before).
  exists RCameras. reflexivity.
Defined.

(** ** Isolation of the requests from one another *)

(** C1, as stated, fails when the failure is a network error: the request
    for [/errors] rejects while the other three succeed, and none of the
    three other cells takes its fetched value. *)
Lemma rejected_fetch_not_isolated :
  failed_at RErrors Sample.errors_rejected = true
  /\ (forall r, r <> RErrors -> is_Some (delivered r Sample.errors_rejected))
  /\ ~ (cell RErrors (poll Sample.errors_rejected Sample.before)
        = cell RErrors Sample.before
        /\ forall r, r <> RErrors ->
             Some (cell r (poll Sample.errors_rejected Sample.before))
             = delivered r Sample.errors_rejected).
Proof.
  split; [reflexivity |]. split.
  - intros r Hr. destruct r; simpl; eauto. now destruct Hr.
  - intros [_ H]. specialize (H RCameras ltac:(discriminate)).
    discriminate H.
Qed.

(** C1, amended. In every poll cycle in which three requests succeed:
    if the fourth is answered with a non-success status, its cell is
    unchanged and the three other cells hold the fetched values; if the
    fourth rejects with a network error, all four cells are unchanged. *)
Theorem poll_isolates_refused_resource
    (bad : Resource) (c : Cycle) (s : AppState) :
  (forall r, r <> bad -> is_Some (delivered r c)) ->
  (refused_at bad c = true ->
     cell bad (poll c s) = cell bad s
     /\ forall r, r <> bad -> Some (cell r (poll c s)) = delivered r c)
  /\ (rejected_at bad c = true ->
        forall r, cell r (poll c s) = cell r s).
Proof.
  intros Hothers. split.
  - intros Hbad. destruct c as [cf pf sf ef t].
    destruct bad; simpl in Hbad; apply refused_true in Hbad as [j ->];
      take_delivered Hothers RCameras; take_delivered Hothers RPredictions;
      take_delivered Hothers RStatus; take_delivered Hothers RErrors;
      (split; [reflexivity |]); intros r Hr; destruct r;
      try reflexivity; now destruct Hr.
  - intros Hbad r.
    apply commit_frame.
    assert (He : setter_order c = []).
    { destruct c as [cf pf sf ef t].
      destruct bad; simpl in Hbad; apply rejected_true in Hbad; subst;
        repeat match goal with p : Settled _ |- _ => destruct p end;
        reflexivity. }
    unfold setter_order in He. rewrite He. apply not_elem_of_nil.
Qed.

Lemma poll_isolates_refused_resource_witness :
  errors (poll Sample.errors_refused Sample.before) = [Sample.err1]
  /\ cameras (poll Sample.errors_refused Sample.before) = [Sample.cam1]
  /\ predictions (poll Sample.errors_refused Sample.before)
     = [Sample.pA; Sample.pB]
  /\ status (poll Sample.errors_refused Sample.before)
     = Some Sample.new_status.
Proof.
  assert (Hothers : forall r, r <> RErrors ->
                      is_Some (delivered r Sample.errors_refused)).
  { intros r Hr. destruct r; simpl; eauto. now destruct Hr. }
  destruct (poll_isolates_refused_resource
              RErrors Sample.errors_refused Sample.before Hothers)
    as [Hrefused _].
  destruct (Hrefused eq_refl) as [Hkept Hnew].
  pose proof (Hnew RCameras ltac:(discriminate)) as Hc.
  pose proof (Hnew RPredictions ltac:(discriminate)) as Hp.
  pose proof (Hnew RStatus ltac:(discriminate)) as Hs.
  simpl in Hkept, Hc, Hp, Hs.
  repeat split; congruence.
Defined.

(** ** The status cell *)

(** Every value a cycle writes is the one its own response carried. *)
Lemma fetchData_from_cycle (c : Cycle) :
  Forall (from_cycle c) (effects (fetchData c)).
Proof. settle c; cbn; repeat constructor. Qed.

Lemma no_status_no_write (c : Cycle) :
  payload (statusFetch c) = None -> RStatus ∉ setter_order c.
Proof.
  intros Hnone. unfold setter_order.
  pose proof (fetchData_from_cycle c) as Hall.
  induction Hall as [| e l He _ IH]; [apply not_elem_of_nil |].
  destruct e; simpl in *; try exact IH;
    rewrite not_elem_of_cons; split; try exact IH; try discriminate.
  congruence.
Qed.

(** C5, as stated, fails: [/status] answers successfully with a new
    value, but the request for [/cameras] rejects in the same cycle, and
    the status cell keeps the earlier value. *)
Lemma successful_status_response_dropped :
  payload (statusFetch Sample.cameras_rejected) = Some (Some Sample.new_status)
  /\ status Sample.before = Some Sample.old_status
  /\ status (poll Sample.cameras_rejected Sample.before)
     = Some Sample.old_status
  /\ status (poll Sample.cameras_rejected Sample.before)
     <> Some Sample.new_status.
Proof. repeat split. discriminate. Qed.

(** What the push handler records. *)
Lemma push_effects (JSON_parse : string -> option Prediction.t)
    (data : string) :
  effects (on_send_sensor_data JSON_parse data)
  = match JSON_parse data with
    | Some p0 => [SetPredictionsWith (fun prevPredictions => p0 :: prevPredictions)]
    | None => []
    end.
Proof.
  unfold on_send_sensor_data, parse.
  destruct (JSON_parse data); reflexivity.
Qed.

Lemma step_status_kept (JSON_parse : string -> option Prediction.t)
    (s : AppState) (ev : Event) :
  (forall c, ev = Poll c -> payload (statusFetch c) = None) ->
  status (step JSON_parse s ev) = status s.
Proof.
  intros Hev.
  assert (H : cell RStatus (step JSON_parse s ev) = cell RStatus s).
  { unfold step. apply commit_frame. destruct ev as [c | data |]; simpl.
    - apply no_status_no_write. now apply Hev.
    - rewrite push_effects. destruct (JSON_parse data); simpl.
      + rewrite list_elem_of_singleton. discriminate.
      + apply not_elem_of_nil.
    - apply not_elem_of_nil. }
  simpl in H. congruence.
Qed.

(** C5, amended. The status cell is null at first and stays null as long
    as no poll cycle has had a successful response from [/status]; and in
    every cycle in which no request rejects, the [/cameras] and
    [/predictions] bodies decode, and [/status] answers successfully, the
    cell then holds exactly the new value, whatever it held before. *)
Theorem status_replaced_when_reached :
  status initial_state = None
  /\ (forall (JSON_parse : string -> option Prediction.t) (evs : list Event),
        (forall c, In (Poll c) evs -> payload (statusFetch c) = None) ->
        status (run JSON_parse evs initial_state) = None)
  /\ (forall (c : Cycle) (s : AppState) (v : option Status.t),
        passes (camerasFetch c) = true ->
        passes (predictionsFetch c) = true ->
        rejected (errorsFetch c) = false ->
        payload (statusFetch c) = Some v ->
        status (poll c s) = v).
Proof.
  split; [reflexivity |]. split.
  - intros JSON_parse evs. unfold run.
    generalize initial_state (eq_refl : status initial_state = None).
    induction evs as [| ev evs IH]; intros s Hs Hevs; simpl; [exact Hs |].
    apply IH.
    + rewrite step_status_kept; [exact Hs |].
      intros c ->. apply Hevs. now left.
    + intros c Hc. apply Hevs. now right.
  - intros c s v Hc Hp He Hs. destruct c as [cf pf sf ef t]. simpl in *.
    apply payload_Some in Hs. subst sf.
    apply rejected_false in He as [re ->].
    apply passes_true in Hc as [[jc ->] | [vc ->]];
      apply passes_true in Hp as [[jp ->] | [vp ->]];
      destruct re as [[] [ve |]]; reflexivity.
Qed.

Lemma status_replaced_when_reached_witness :
  status (poll Sample.all_succeed Sample.before) = Some Sample.new_status.
Proof.
  destruct status_replaced_when_reached as (_ & _ & H).
  apply (H Sample.all_succeed Sample.before (Some Sample.new_status));
    reflexivity.
Defined.

(** ** The order of the setter calls within a cycle *)

(** C6, as stated, fails: the four responses arrive in the order errors,
    status, predictions, cameras, all successful, and the setters are
    called in the order cameras, predictions, status, errors. *)
Lemma setters_not_in_arrival_order :
  (forall r, is_Some (delivered r Sample.reversed))
  /\ arrival_order Sample.reversed = [RErrors; RStatus; RPredictions; RCameras]
  /\ setter_order Sample.reversed = [RCameras; RPredictions; RStatus; RErrors]
  /\ setter_order Sample.reversed <> arrival_order Sample.reversed.
Proof.
  split; [intros r; destruct r; simpl; eauto |].
  repeat split. discriminate.
Qed.

(** C6, amended. In every poll cycle the setters are called after all
    four responses have arrived, in the fixed order of the four lines of
    [fetchData] (cameras, predictions, status, errors), whatever the
    order in which the responses arrived; when all four requests succeed
    all four are called; and every value written is the one carried by
    this cycle's own response. *)
Theorem setters_in_program_order (c : Cycle) :
  setter_order c `sublist_of` program_order
  /\ Forall (fun call => is_setter call.2 ->
                         forall r, (arrival c r <= call.1)%nat)
            (timeline (fetchData c))
  /\ (forall t : Resource -> nat, setter_order (with_arrival t c) = setter_order c)
  /\ ((forall r, is_Some (delivered r c)) -> setter_order c = program_order)
  /\ Forall (from_cycle c) (effects (fetchData c)).
Proof.
  split; [| split; [| split; [| split]]].
  - settle c; cbn;
      repeat first [apply sublist_nil | apply sublist_skip | apply sublist_cons].
  - settle c; unfold timeline; cbn;
      repeat (apply List.Forall_cons;
              [ cbn; intros Hs r;
                try (destruct Hs as [? Hs]; discriminate Hs);
                destruct r; lia
              | ]);
      apply List.Forall_nil.
  - intros t'. settle c; reflexivity.
  - intros Hall.
    pose proof (Hall RCameras) as H1. pose proof (Hall RPredictions) as H2.
    pose proof (Hall RStatus) as H3. pose proof (Hall RErrors) as H4.
    destruct c as [cf pf sf ef t].
    use_delivered H1. use_delivered H2. use_delivered H3. use_delivered H4.
    reflexivity.
  - apply fetchData_from_cycle.
Qed.

Lemma setters_in_program_order_witness :
  setter_order Sample.reversed = program_order.
Proof.
  destruct (setters_in_program_order Sample.reversed) as (_ & _ & _ & H & _).
  apply H. intros r. destruct r; simpl; eauto.
Defined.

(** ** The push handler *)

Section PushProperties.

Variable JSON_parse : string -> option Prediction.t.

Lemma push_parsed (data : string) (p0 : Prediction.t) :
  JSON_parse data = Some p0 ->
  effects (on_send_sensor_data JSON_parse data)
  = [SetPredictionsWith (fun prevPredictions => p0 :: prevPredictions)]
  /\ outcome (on_send_sensor_data JSON_parse data) = Returned tt.
Proof. intros H. unfold on_send_sensor_data, parse. now rewrite H. Qed.

Lemma push_not_parsed (data : string) :
  JSON_parse data = None ->
  effects (on_send_sensor_data JSON_parse data) = []
  /\ outcome (on_send_sensor_data JSON_parse data) = Thrown SyntaxError.
Proof. intros H. unfold on_send_sensor_data, parse. now rewrite H. Qed.

(** C3. For every prediction sequence and every frame that decodes to
    an item [p0], the handler returns and the sequence is then [p0]
    followed by all the earlier items in their earlier order. *)
Theorem push_prepends (data : string) (p0 : Prediction.t) (s : AppState) :
  JSON_parse data = Some p0 ->
  outcome (on_send_sensor_data JSON_parse data) = Returned tt
  /\ predictions (step JSON_parse s (Push data)) = p0 :: predictions s.
Proof.
  intros H. destruct (push_parsed data p0 H) as [He Ho].
  unfold step, handle. rewrite He, Ho. split; reflexivity.
Qed.

(** C7. For every frame that is not JSON, the handler ends by throwing
    the decode error, which nothing in it catches; it calls no setter,
    and the prediction sequence is unchanged. *)
Theorem push_decode_failure_unguarded (data : string) (s : AppState) :
  JSON_parse data = None ->
  outcome (on_send_sensor_data JSON_parse data) = Thrown SyntaxError
  /\ effects (on_send_sensor_data JSON_parse data) = []
  /\ predictions (step JSON_parse s (Push data)) = predictions s.
Proof.
  intros H. destruct (push_not_parsed data H) as [He Ho].
  unfold step, handle. rewrite He, Ho. repeat split.
Qed.

(** C10. Every run of the push handler leaves the cameras, the status
    and the errors as they were. *)
Theorem push_frame (data : string) (s : AppState) :
  cameras (step JSON_parse s (Push data)) = cameras s
  /\ status (step JSON_parse s (Push data)) = status s
  /\ errors (step JSON_parse s (Push data)) = errors s.
Proof.
  unfold step, handle. rewrite push_effects.
  destruct (JSON_parse data); repeat split.
Qed.

(** Running the handler before the first update of the cycle, or after
    the last, is handling the two events one after the other. *)
Lemma interleave_first (c : Cycle) (data : string) (s : AppState) :
  interleave JSON_parse 0 c data s = run JSON_parse [Push data; Poll c] s.
Proof. reflexivity. Qed.

Lemma interleave_last (k : nat) (c : Cycle) (data : string) (s : AppState) :
  (length (effects (fetchData c)) <= k)%nat ->
  interleave JSON_parse k c data s = run JSON_parse [Poll c; Push data] s.
Proof.
  intros Hk. unfold interleave.
  rewrite take_ge, drop_ge by exact Hk. reflexivity.
Qed.

(** C4. A poll cycle whose predictions response is [[pA; pB]] and a
    push of [p0], both applied: wherever the handler runs among the
    updates of the cycle, the sequence ends as [[pA; pB]] when the
    replacement came after the prepend and as [[p0; pA; pB]] when the
    prepend came after the replacement, whatever it held before. *)
Theorem poll_push_last_write_wins
    (c : Cycle) (data : string) (s : AppState)
    (pA pB p0 : Prediction.t) (i k : nat) :
  JSON_parse data = Some p0 ->
  payload (predictionsFetch c) = Some [pA; pB] ->
  predictions_write_index c = Some i ->
  ((k <= i)%nat ->
     predictions (interleave JSON_parse k c data s) = [pA; pB])
  /\ ((i < k)%nat ->
        predictions (interleave JSON_parse k c data s) = [p0; pA; pB])
  /\ predictions (run JSON_parse [Push data; Poll c] s) = [pA; pB]
  /\ predictions (run JSON_parse [Poll c; Push data] s) = [p0; pA; pB].
Proof.
  intros Hp0 Hpoll Hi.
  unfold interleave, run, step, handle. simpl fold_left.
  rewrite (proj1 (push_parsed data p0 Hp0)).
  destruct c as [cf pf sf ef t]. simpl in Hpoll.
  apply payload_Some in Hpoll. subst pf.
  destruct cf as [[[] [? |]] |], sf as [[[] [? |]] |], ef as [[[] [? |]] |];
    cbv in Hi; try discriminate Hi;
    injection Hi as <-;
    (split; [| split; [| split; reflexivity]]); intros Hk;
    destruct k as [| [| [| [| [| [| k]]]]]];
    try reflexivity; exfalso; lia.
Qed.

End PushProperties.

Lemma push_prepends_witness :
  predictions (step Sample.host_parse Sample.before (Push Sample.frame_p0))
  = [Sample.p0; Sample.p1; Sample.p2].
Proof.
  apply (push_prepends Sample.host_parse Sample.frame_p0 Sample.p0
                       Sample.before).
  reflexivity.
Defined.

Lemma push_decode_failure_unguarded_witness :
  outcome (on_send_sensor_data Sample.host_parse Sample.frame_garbage)
  = Thrown SyntaxError
  /\ predictions
       (step Sample.host_parse Sample.before (Push Sample.frame_garbage))
     = [Sample.p1; Sample.p2].
Proof.
  destruct (push_decode_failure_unguarded
              Sample.host_parse Sample.frame_garbage Sample.before eq_refl)
    as (Hthrown & _ & Hkept).
  split; [exact Hthrown | exact Hkept].
Defined.

Lemma poll_push_last_write_wins_witness :
  predictions (interleave Sample.host_parse 1 Sample.all_succeed
                          Sample.frame_p0 Sample.before)
  = [Sample.pA; Sample.pB]
  /\ predictions (interleave Sample.host_parse 2 Sample.all_succeed
                             Sample.frame_p0 Sample.before)
     = [Sample.p0; Sample.pA; Sample.pB].
Proof.
  split.
  - destruct (poll_push_last_write_wins
                Sample.host_parse Sample.all_succeed Sample.frame_p0
                Sample.before Sample.pA Sample.pB Sample.p0 1 1
                eq_refl eq_refl eq_refl) as (Hbefore & _).
    apply Hbefore. lia.
  - destruct (poll_push_last_write_wins
                Sample.host_parse Sample.all_succeed Sample.frame_p0
                Sample.before Sample.pA Sample.pB Sample.p0 1 2
                eq_refl eq_refl eq_refl) as (_ & Hafter & _).
    apply Hafter. lia.
Defined.

(** ** Teardown *)

Lemma alter_last {A : Type} (f : A -> A) (l : list A) (x : A) :
  alter f (length l) (l ++ [x]) = l ++ [f x].
Proof.
  induction l as [| y l IH]; simpl; [reflexivity |].
  now rewrite <- IH.
Qed.

(** C8, on the code. Unmounting cancels the timer that the mount
    created, but the connection that the mount opened stays open with its
    [send_sensor_data] handler; mounting again opens one more, so that
    two connections deliver the topic where one view is mounted. *)
Theorem unmount_leaves_socket_open (h : Lifecycle.Host) :
  ~ In (Lifecycle.nextId h)
       (map fst (Lifecycle.intervals (Lifecycle.mount_unmount h)))
  /\ Lifecycle.sockets (Lifecycle.mount_unmount h)
     = Lifecycle.sockets h
       ++ [Lifecycle.mkSocket "https://vertiapp.xyz"
             ["websocket"; "polling"]%string "/socket.io/" true true
             ["connect"; "send_sensor_data"]%string]
  /\ Lifecycle.subscriptions "send_sensor_data" (Lifecycle.mount_unmount h)
     = S (Lifecycle.subscriptions "send_sensor_data" h)
  /\ Lifecycle.subscriptions "send_sensor_data"
       (fst (Lifecycle.useEffect
               (Lifecycle.mount_unmount Lifecycle.empty_host)))
     = 2%nat.
Proof.
  assert (Hs : Lifecycle.sockets (Lifecycle.mount_unmount h)
               = Lifecycle.sockets h
                 ++ [Lifecycle.mkSocket "https://vertiapp.xyz"
                       ["websocket"; "polling"]%string "/socket.io/" true true
                       ["connect"; "send_sensor_data"]%string]).
  { unfold Lifecycle.mount_unmount, Lifecycle.useEffect. simpl.
    rewrite !alter_last. reflexivity. }
  split; [| split; [exact Hs | split]].
  - unfold Lifecycle.mount_unmount, Lifecycle.useEffect. simpl.
    rewrite in_map_iff. intros [[id ms] [Hid Hin]]. simpl in Hid. subst id.
    apply List.filter_In in Hin as [_ Hne]. simpl in Hne.
    rewrite Nat.eqb_refl in Hne. discriminate Hne.
  - unfold Lifecycle.subscriptions. rewrite Hs.
    rewrite List.filter_app, length_app. simpl. lia.
  - vm_compute. reflexivity.
Qed.

(** * Further properties *)

(** ** [formatUptime] beyond the non-negative integers *)

(** X1. A negative whole number of seconds, down to the negative of
    [Number.MAX_SAFE_INTEGER], is rounded away from zero in both parts,
    and both parts carry its sign: [-T] seconds give [-ceil(T/3600)]
    hours and [-ceil((T mod 3600)/60)] minutes. *)
Theorem formatUptime_negative (T : Z) :
  0 < T <= Number.MAX_SAFE_INTEGER ->
  formatUptime (Number.of_int (- T))
  = (Number.decimal (- ((T + 3599) / 3600)) ++ "h "
     ++ Number.decimal (- ((T mod 3600 + 59) / 60)) ++ "m")%string.
Proof.
  intros HT. unfold Number.MAX_SAFE_INTEGER in HT.
  rewrite formatUptime_int by lia.
  replace (- T / 3600) with (- ((T + 3599) / 3600))
    by (Z.div_mod_to_equations; lia).
  replace (Z.rem (- T) 3600 / 60) with (- ((T mod 3600 + 59) / 60)).
  - reflexivity.
  - rewrite Z.rem_opp_l by lia. rewrite Z.rem_mod_nonneg by lia.
    Z.div_mod_to_equations; lia.
Qed.

Lemma formatUptime_negative_witness :
  formatUptime (Number.of_int (- 3661)) = "-2h -2m"%string.
Proof.
  apply (formatUptime_negative 3661).
  unfold Number.MAX_SAFE_INTEGER. lia.
Defined.

(** X2. Whole seconds from 0 to [Number.MAX_SAFE_INTEGER] within the
    same minute give the same text: the seconds are cut off, never
    rounded up. *)
Theorem formatUptime_same_minute (S S' : Z) :
  0 <= S <= Number.MAX_SAFE_INTEGER ->
  0 <= S' <= Number.MAX_SAFE_INTEGER ->
  S / 60 = S' / 60 ->
  formatUptime (Number.of_int S) = formatUptime (Number.of_int S').
Proof.
  intros HS HS' Hmin. unfold Number.MAX_SAFE_INTEGER in *.
  rewrite !formatUptime_int by lia.
  rewrite !Z.rem_mod_nonneg by lia.
  replace (S' / 3600) with (S / 3600) by (Z.div_mod_to_equations; lia).
  replace (S' mod 3600 / 60) with (S mod 3600 / 60)
    by (Z.div_mod_to_equations; lia).
  reflexivity.
Qed.

Lemma formatUptime_same_minute_witness :
  formatUptime (Number.of_int 3600) = formatUptime (Number.of_int 3659).
Proof.
  apply formatUptime_same_minute;
    [unfold Number.MAX_SAFE_INTEGER; lia
    | unfold Number.MAX_SAFE_INTEGER; lia | reflexivity].
Defined.

(** X3. A non-negative uptime with a fraction of a second is shown as
    its whole seconds are: the fraction is dropped.  This holds of every
    non-negative finite double. *)
Theorem formatUptime_drops_fraction (x : Q) :
  Number.double x -> (0 <= x)%Q ->
  formatUptime (Number.Finite x) = formatUptime (Number.of_int (Qfloor x)).
Proof.
  intros (m & g & Hm & Hg & Hx) Hpos.
  assert (Hm0 : 0 <= m).
  { rewrite Hx in Hpos. unfold Qle in Hpos. simpl in Hpos.
    assert (0 < 2 ^ Z.max 0 g) by (apply pow2_pos; lia). nia. }
  destruct (Z_le_gt_dec 0 g) as [Hge | Hlt].
  - (* a whole number *)
    replace (Z.max 0 g) with g in Hx by lia.
    replace (Z.max 0 (- g)) with 0 in Hx by lia.
    change (Z.to_pos (2 ^ 0)) with 1%positive in Hx.
    change (m * 2 ^ g # 1) with (inject_Z (m * 2 ^ g)) in Hx.
    rewrite (Qfloor_comp _ _ Hx), Qfloor_Z.
    rewrite of_int_exact by lia.
    now apply formatUptime_comp.
  - (* a multiple of a negative power of two, below 2^53 *)
    replace (Z.max 0 g) with 0 in Hx by lia.
    replace (Z.max 0 (- g)) with (- g) in Hx by lia.
    change (2 ^ 0) with 1 in Hx. rewrite Z.mul_1_r in Hx.
    assert (Ht : 0 < 2 ^ (- g)) by (apply pow2_pos; lia).
    set (b := Z.to_pos (2 ^ (- g))) in *.
    assert (Hn : Qfloor x = m / Zpos b) by (now rewrite (Qfloor_comp _ _ Hx)).
    set (n := m / Zpos b) in *.
    assert (Hn0 : 0 <= n <= m)
      by (split; [apply Z.div_pos | apply Z.div_le_upper_bound]; nia).
    rewrite Hn, of_int_signed by lia.
    unfold formatUptime.
    destruct (hours_minutes_nonneg x m b Hx ltac:(lia)) as [-> ->].
    destruct (hours_minutes_nonneg (inject_Z n) n 1 ltac:(reflexivity)
                ltac:(lia)) as [-> ->].
    assert (Hh : m / (Zpos b * 3600) = n / (Z.pos 1 * 3600)).
    { unfold n. rewrite Z.div_div by lia. reflexivity. }
    rewrite Hh.
    replace ((m - 3600 * Zpos b * (n / (Z.pos 1 * 3600))) / (Zpos b * 60))
      with ((n - 3600 * Z.pos 1 * (n / (Z.pos 1 * 3600))) / (Z.pos 1 * 60));
      [reflexivity |].
    set (k := n / (Z.pos 1 * 3600)).
    rewrite <- (Z.div_div _ (Zpos b) 60) by lia.
    replace (m - 3600 * Zpos b * k) with (m + (- (3600 * k)) * Zpos b) by ring.
    rewrite Z.div_add by lia. fold n.
    f_equal; ring.
Qed.

Lemma formatUptime_drops_fraction_witness :
  formatUptime (7325 # 2) = "1h 1m"%string.
Proof.
  rewrite (formatUptime_drops_fraction (7325 # 2)).
  - reflexivity.
  - exists 7325, (- 1). split; [reflexivity |]. split; [lia | reflexivity].
  - discriminate.
Defined.

(** ** More on the poll cycle *)

Lemma commit_app (l1 l2 : list Effect) (s : AppState) :
  commit (l1 ++ l2) s = commit l2 (commit l1 s).
Proof. unfold commit. apply fold_left_app. Qed.

(** What an update does to a cell depends on that cell only. *)
Lemma apply_effect_cell_ext (r : Resource) (e : Effect) (s1 s2 : AppState) :
  cell r s1 = cell r s2 ->
  cell r (apply_effect s1 e) = cell r (apply_effect s2 e).
Proof. destruct e, r; simpl; intros H; congruence. Qed.

Lemma commit_cell_ext (r : Resource) (l : list Effect) (s1 s2 : AppState) :
  cell r s1 = cell r s2 -> cell r (commit l s1) = cell r (commit l s2).
Proof.
  unfold commit. revert s1 s2.
  induction l as [| e l IH]; intros s1 s2 H; simpl; [exact H |].
  apply IH. apply apply_effect_cell_ext. exact H.
Qed.

Lemma from_cycle_cell (c : Cycle) (e : Effect) (r : Resource) (s : AppState) :
  from_cycle c e -> setter_of e = Some r ->
  Some (cell r (apply_effect s e)) = delivered r c.
Proof.
  destruct e; simpl; intros Hc Hr; try discriminate Hr; try contradiction;
    injection Hr as <-; simpl; now rewrite Hc.
Qed.

(** X4. [fetchData] never rejects, and it writes to the console exactly
    when one of its four lines cannot go through: a request that rejects,
    or a success status with a body that does not decode.  Non-success
    statuses are skipped silently: when all four requests get one, the
    cycle does nothing at all. *)
Theorem fetchData_logs_iff_thrown (c : Cycle) :
  outcome (fetchData c) = Returned tt
  /\ ((exists msg e, In (ConsoleError msg e) (effects (fetchData c)))
      <-> (exists r, passes_at r c = false))
  /\ ((forall r, refused_at r c = true) -> effects (fetchData c) = []).
Proof.
  split; [| split].
  - settle c; reflexivity.
  - split.
    + intros (msg & e & Hin).
      settle c; vm_compute in Hin;
        first [ exists RCameras; reflexivity
              | exists RPredictions; reflexivity
              | exists RStatus; reflexivity
              | exists RErrors; reflexivity
              | exfalso; intuition discriminate ].
    + intros [r Hr].
      settle c; destruct r; cbn in Hr; try discriminate Hr;
        eexists _, _; cbv;
        repeat first [left; reflexivity | right].
  - intros Hall.
    pose proof (Hall RCameras) as H1. pose proof (Hall RPredictions) as H2.
    pose proof (Hall RStatus) as H3. pose proof (Hall RErrors) as H4.
    destruct c as [cf pf sf ef t]. simpl in H1, H2, H3, H4.
    apply refused_true in H1 as [? ->]. apply refused_true in H2 as [? ->].
    apply refused_true in H3 as [? ->]. apply refused_true in H4 as [? ->].
    reflexivity.
Qed.

Lemma fetchData_logs_iff_thrown_witness :
  exists msg e,
    In (ConsoleError msg e) (effects (fetchData Scenario.predictions_garbled)).
Proof.
  destruct (fetchData_logs_iff_thrown Scenario.predictions_garbled)
    as (_ & [_ Hlog] & _).
  apply Hlog. exists RPredictions. reflexivity.
Defined.

(** X5. A success status with a body that does not decode cuts the cycle
    short at that line: when no request rejects and the earlier lines go
    through, the cells of the earlier lines have already taken their
    fetched values, and the cell of that line and of every later line is
    unchanged, whatever the later responses were. *)
Theorem garbled_body_cuts_cycle (c : Cycle) (r : Resource) (s : AppState) :
  (forall r', rejected_at r' c = false) ->
  (forall r', (line r' < line r)%nat -> passes_at r' c = true) ->
  garbled_at r c = true ->
  (forall r', (line r <= line r')%nat -> cell r' (poll c s) = cell r' s)
  /\ (forall r' v, (line r' < line r)%nat -> delivered r' c = Some v ->
        cell r' (poll c s) = v).
Proof.
  intros Hrej Hpass Hg.
  pose proof (Hrej RCameras) as R1. pose proof (Hrej RPredictions) as R2.
  pose proof (Hrej RStatus) as R3. pose proof (Hrej RErrors) as R4.
  pose proof (Hpass RCameras) as P1. pose proof (Hpass RPredictions) as P2.
  pose proof (Hpass RStatus) as P3.
  clear Hrej Hpass.
  destruct c as [cf pf sf ef t]. simpl in R1, R2, R3, R4.
  apply rejected_false in R1 as [[okc jc] ->].
  apply rejected_false in R2 as [[okp jp] ->].
  apply rejected_false in R3 as [[oks js] ->].
  apply rejected_false in R4 as [[oke je] ->].
  destruct r; simpl in Hg, P1, P2, P3;
    try (specialize (P1 ltac:(lia)));
    try (specialize (P2 ltac:(lia)));
    try (specialize (P3 ltac:(lia)));
    destruct okc, jc, okp, jp, oks, js, oke, je;
    try discriminate;
    (split;
     [ intros r' Hr'; destruct r'; simpl in Hr'; try lia; reflexivity
     | intros r' v Hr' Hv; destruct r'; simpl in Hr'; try lia;
       cbn in Hv; try discriminate Hv; injection Hv as <-; reflexivity ]).
Qed.

Lemma garbled_body_cuts_cycle_witness :
  cell RCameras (poll Scenario.predictions_garbled Sample.before)
  = VCameras [Sample.cam1]
  /\ cell RStatus (poll Scenario.predictions_garbled Sample.before)
     = VStatus (Some Sample.old_status).
Proof.
  destruct (garbled_body_cuts_cycle
              Scenario.predictions_garbled RPredictions Sample.before)
    as [Hkept Hnew].
  - intros r'. destruct r'; reflexivity.
  - intros r' Hr'. destruct r'; simpl in Hr'; try lia. reflexivity.
  - reflexivity.
  - split.
    + apply Hnew; [simpl; lia | reflexivity].
    + apply (Hkept RStatus). simpl. lia.
Defined.

(** X6. Applying the same responses twice is applying them once. *)
Theorem poll_idempotent (c : Cycle) (s : AppState) :
  poll c (poll c s) = poll c s.
Proof. settle c; reflexivity. Qed.

(** ** Pushes, and pushes among polls *)

Section MorePushProperties.

Variable JSON_parse : string -> option Prediction.t.

Lemma push_setters (data : string) (r : Resource) :
  r <> RPredictions ->
  r ∉ omap setter_of (effects (on_send_sensor_data JSON_parse data)).
Proof.
  intros Hr. unfold on_send_sensor_data, parse.
  destruct (JSON_parse data); simpl.
  - rewrite list_elem_of_singleton. congruence.
  - apply not_elem_of_nil.
Qed.

(** X8. Pushes pile up, newest first: over every run in which no poll
    replaces the predictions, the sequence ends as the decoded frames in
    reverse arrival order followed by what it held before.  Frames that do
    not decode, failed polls and toggles leave no trace in it. *)
Theorem pushes_accumulate (evs : list Event) (s : AppState) :
  (forall c, In (Poll c) evs -> RPredictions ∉ setter_order c) ->
  predictions (run JSON_parse evs s)
  = rev (decoded JSON_parse evs) ++ predictions s.
Proof.
  unfold run. revert s.
  induction evs as [| ev evs IH]; intros s Hevs; simpl; [reflexivity |].
  rewrite IH by (intros c Hc; apply Hevs; now right).
  destruct ev as [c | data |]; simpl.
  - f_equal.
    assert (H : cell RPredictions (step JSON_parse s (Poll c))
                = cell RPredictions s).
    { unfold step. apply commit_frame. apply Hevs. now left. }
    simpl in H. congruence.
  - unfold step, handle, on_send_sensor_data, parse.
    destruct (JSON_parse data) as [p |]; simpl; [| reflexivity].
    now rewrite <- app_assoc.
  - reflexivity.
Qed.

(** X9. A push handled in the middle of a poll cycle does not disturb
    what the cycle does to the cameras, the status and the errors: at
    every point of the cycle where it can run, these three cells end as
    the cycle alone leaves them. *)
Theorem push_amid_poll_frame
    (k : nat) (c : Cycle) (data : string) (s : AppState) (r : Resource) :
  r <> RPredictions ->
  cell r (interleave JSON_parse k c data s) = cell r (poll c s).
Proof.
  intros Hr. unfold interleave, poll.
  rewrite <- (take_drop k (effects (fetchData c))) at 3.
  rewrite commit_app.
  apply commit_cell_ext.
  apply commit_frame. apply push_setters. exact Hr.
Qed.

(** X10. When the cycle does not replace the predictions (its request
    was refused, say), a push handled at any point of the cycle prepends
    as it does outside of one. *)
Theorem push_amid_poll_without_replacement
    (k : nat) (c : Cycle) (data : string) (s : AppState) :
  RPredictions ∉ setter_order c ->
  predictions (interleave JSON_parse k c data s)
  = predictions (step JSON_parse s (Push data)).
Proof.
  intros Hc. unfold setter_order in Hc.
  rewrite <- (take_drop k (effects (fetchData c))) in Hc.
  rewrite omap_app, not_elem_of_app in Hc. destruct Hc as [Htake Hdrop].
  assert (H : cell RPredictions (interleave JSON_parse k c data s)
              = cell RPredictions (step JSON_parse s (Push data))).
  { unfold interleave, step, handle.
    rewrite (commit_frame _ _ _ Hdrop).
    apply commit_cell_ext.
    apply commit_frame. exact Htake. }
  simpl in H. congruence.
Qed.

End MorePushProperties.

Lemma pushes_accumulate_witness :
  predictions (run Sample.host_parse
                   [Push Sample.frame_p0; Poll Sample.cameras_rejected;
                    Push Sample.frame_garbage; Toggle; Push Sample.frame_p0]
                   Sample.before)
  = [Sample.p0; Sample.p0; Sample.p1; Sample.p2].
Proof.
  apply (pushes_accumulate Sample.host_parse).
  intros c [Hc | [Hc | [Hc | [Hc | [Hc | []]]]]]; try discriminate Hc.
  injection Hc as <-. apply not_elem_of_nil.
Defined.

Lemma push_amid_poll_frame_witness :
  cell RStatus (interleave Sample.host_parse 1 Sample.all_succeed
                           Sample.frame_p0 Sample.before)
  = cell RStatus (poll Sample.all_succeed Sample.before).
Proof. apply push_amid_poll_frame. discriminate. Defined.

Lemma push_amid_poll_without_replacement_witness :
  predictions (interleave Sample.host_parse 1 Sample.cameras_rejected
                          Sample.frame_p0 Sample.before)
  = [Sample.p0; Sample.p1; Sample.p2].
Proof.
  apply (push_amid_poll_without_replacement Sample.host_parse).
  apply not_elem_of_nil.
Defined.

(** ** Overlapping poll cycles *)

Lemma Merge_Forall {A : Type} (P : A -> Prop) (l1 l2 l : list A) :
  Merge l1 l2 l -> Forall P l1 -> Forall P l2 -> Forall P l.
Proof.
  induction 1 as [| x l1 l2 l _ IH | x l1 l2 l _ IH]; intros H1 H2.
  - constructor.
  - inversion H1; subst. constructor; auto.
  - inversion H2; subst. constructor; auto.
Qed.

Lemma commit_from_cycles (c1 c2 : Cycle) (r : Resource) (l : list Effect)
    (s : AppState) :
  Forall (fun e => from_cycle c1 e \/ from_cycle c2 e) l ->
  cell r (commit l s) = cell r s
  \/ Some (cell r (commit l s)) = delivered r c1
  \/ Some (cell r (commit l s)) = delivered r c2.
Proof.
  induction l as [| e l IH] using rev_ind; intros Hl; [now left |].
  apply Forall_app in Hl as [Hl He]. inversion He as [| ? ? Hfrom _]; subst.
  rewrite commit_app.
  change (commit [e] (commit l s)) with (apply_effect (commit l s) e).
  destruct (decide (setter_of e = Some r)) as [Hr | Hr].
  - right. destruct Hfrom as [H1 | H2].
    + left. now apply from_cycle_cell.
    + right. now apply from_cycle_cell.
  - rewrite apply_effect_frame by exact Hr. now apply IH.
Qed.

(** X11. Two poll cycles that overlap, their updates interleaved in any
    way: each cell ends with its earlier content, or with what the first
    cycle fetched for it, or with what the second fetched for it.  The
    cells are settled one by one, so the snapshot can mix the two. *)
Theorem overlapping_polls_per_cell
    (c1 c2 : Cycle) (l : list Effect) (s : AppState) (r : Resource) :
  Merge (effects (fetchData c1)) (effects (fetchData c2)) l ->
  cell r (commit l s) = cell r s
  \/ Some (cell r (commit l s)) = delivered r c1
  \/ Some (cell r (commit l s)) = delivered r c2.
Proof.
  intros Hm. apply commit_from_cycles.
  apply (Merge_Forall _ _ _ _ Hm).
  - eapply Forall_impl; [apply fetchData_from_cycle |]. now left.
  - eapply Forall_impl; [apply fetchData_from_cycle |]. now right.
Qed.

Lemma overlapping_polls_per_cell_witness :
  exists l,
    Merge (effects (fetchData Sample.all_succeed))
          (effects (fetchData Scenario.later)) l
    /\ Some (cell RCameras (commit l Sample.before))
       = delivered RCameras Scenario.later
    /\ Some (cell RErrors (commit l Sample.before))
       = delivered RErrors Sample.all_succeed
    /\ (cell RStatus (commit l Sample.before) = cell RStatus Sample.before
        \/ Some (cell RStatus (commit l Sample.before))
           = delivered RStatus Sample.all_succeed
        \/ Some (cell RStatus (commit l Sample.before))
           = delivered RStatus Scenario.later).
Proof.
  exists [SetCameras [Sample.cam1];
          SetCameras [Sample.cam1; Scenario.cam2];
          SetPredictions [Sample.p0];
          SetStatus (Some Scenario.later_status);
          SetErrors [Sample.err1];
          SetPredictions [Sample.pA; Sample.pB];
          SetStatus (Some Sample.new_status);
          SetErrors []].
  assert (Hm : Merge (effects (fetchData Sample.all_succeed))
                     (effects (fetchData Scenario.later))
                     [SetCameras [Sample.cam1];
                      SetCameras [Sample.cam1; Scenario.cam2];
                      SetPredictions [Sample.p0];
                      SetStatus (Some Scenario.later_status);
                      SetErrors [Sample.err1];
                      SetPredictions [Sample.pA; Sample.pB];
                      SetStatus (Some Sample.new_status);
                      SetErrors []]).
  { cbn.
    apply merge_left. do 4 apply merge_right. do 3 apply merge_left.
    apply merge_nil. }
  split; [exact Hm |]. split; [reflexivity |]. split; [reflexivity |].
  exact (overlapping_polls_per_cell _ _ _ Sample.before RStatus Hm).
Defined.

(** ** Clearing the status cell *)

(** X7. A status cell that holds a value is cleared by one thing only: a
    poll cycle whose [/status] response is successful and has the body
    [null].  Pushes, toggles, cycles that fail and cycles that deliver a
    status object leave a value in it. *)
Theorem status_cleared_only_by_null_body
    (JSON_parse : string -> option Prediction.t) (s : AppState) (ev : Event) :
  is_Some (status s) ->
  status (step JSON_parse s ev) = None ->
  exists c, ev = Poll c /\ payload (statusFetch c) = Some None.
Proof.
  intros [st Hst] Hnone.
  destruct ev as [c | data |].
  - exists c. split; [reflexivity |].
    destruct (payload (statusFetch c)) as [[v |] |] eqn:Hp; [| reflexivity |].
    + exfalso.
      destruct (commit_from_cycles c c RStatus (effects (fetchData c)) s)
        as [H | [H | H]].
      * eapply Forall_impl; [apply fetchData_from_cycle |]. now left.
      * unfold step in Hnone. simpl in H, Hnone. congruence.
      * unfold step in Hnone. simpl in H, Hnone. rewrite Hp in H.
        simpl in H. congruence.
      * unfold step in Hnone. simpl in H, Hnone. rewrite Hp in H.
        simpl in H. congruence.
    + rewrite step_status_kept in Hnone; [congruence |].
      intros c' [= <-]. exact Hp.
  - rewrite step_status_kept in Hnone; [congruence | discriminate].
  - rewrite step_status_kept in Hnone; [congruence | discriminate].
Qed.

Lemma status_cleared_only_by_null_body_witness :
  status Sample.before = Some Sample.old_status
  /\ exists c, Poll Scenario.status_null = Poll c
             /\ payload (statusFetch c) = Some None.
Proof.
  split; [reflexivity |].
  apply (status_cleared_only_by_null_body Sample.host_parse Sample.before).
  - simpl. eauto.
  - reflexivity.
Defined.

(** ** The log toggle *)

(** X12. The toggle touches its own cell only, two toggles in a row
    bring the cells back, and a toggle can be swapped with a poll or a
    push next to it without changing the outcome. *)
Theorem toggle_independent
    (JSON_parse : string -> option Prediction.t)
    (s : AppState) (ev : Event) :
  (forall r, cell r (step JSON_parse s Toggle) = cell r s)
  /\ isLogExpanded (step JSON_parse s Toggle) = negb (isLogExpanded s)
  /\ step JSON_parse (step JSON_parse s Toggle) Toggle = s
  /\ step JSON_parse (step JSON_parse s Toggle) ev
     = step JSON_parse (step JSON_parse s ev) Toggle.
Proof.
  split; [intros r; destruct r; reflexivity |].
  split; [reflexivity |].
  split.
  - destruct s as [cs ps st es b]. unfold step. simpl.
    now rewrite negb_involutive.
  - destruct ev as [c | data |]; [| | reflexivity].
    + unfold step, handle. settle c; reflexivity.
    + unfold step, handle, on_send_sensor_data, parse.
      destruct (JSON_parse data); reflexivity.
Qed.

(** ** The rendered view *)




(** X14. After a cycle in which [/cameras] and [/status] succeed and
    nothing before line 55 throws, whatever the cells held, the header
    counts the cameras just fetched and shows the whole seconds [S] of
    the fetched uptime, from 0 to [Number.MAX_SAFE_INTEGER], as hours and
    minutes. *)
Theorem render_after_poll
    (c : Cycle) (s : AppState) (cs : list Camera.t) (st : Status.t) (S : Z) :
  payload (camerasFetch c) = Some cs ->
  passes (predictionsFetch c) = true ->
  payload (statusFetch c) = Some (Some st) ->
  rejected (errorsFetch c) = false ->
  Status.uptime st = Number.of_int S ->
  0 <= S <= Number.MAX_SAFE_INTEGER ->
  cameraCount (render (poll c s)) = length cs
  /\ uptimeText <$> statusPanel (render (poll c s))
     = Some (Number.decimal (S / 3600) ++ "h "
             ++ Number.decimal (S mod 3600 / 60) ++ "m")%string.
Proof.
  intros Hc Hp Hs He Hup HS. destruct c as [cf pf sf ef t]. simpl in *.
  apply payload_Some in Hc, Hs. subst cf sf.
  apply rejected_false in He as [re ->].
  assert (Hpoll : cameras (poll (mkCycle (Fulfilled (mkResponse true (Some cs)))
                                   pf
                                   (Fulfilled (mkResponse true (Some (Some st))))
                                   (Fulfilled re) t) s) = cs
                  /\ status (poll (mkCycle (Fulfilled (mkResponse true (Some cs)))
                                   pf
                                   (Fulfilled (mkResponse true (Some (Some st))))
                                   (Fulfilled re) t) s) = Some st).
  { apply passes_true in Hp as [[jp ->] | [vp ->]];
      destruct re as [[] [ve |]]; split; reflexivity. }
  destruct Hpoll as [Hcs Hst].
  unfold render. simpl. rewrite Hcs, Hst. split; [reflexivity |].
  simpl. unfold Number.MAX_SAFE_INTEGER in HS.
  rewrite Hup, formatUptime_int by lia.
  now rewrite Z.rem_mod_nonneg by lia.
Qed.

Lemma render_after_poll_witness :
  cameraCount (render (poll Sample.all_succeed Sample.before)) = 1%nat
  /\ uptimeText <$> statusPanel (render (poll Sample.all_succeed Sample.before))
     = Some "1h 1m"%string.
Proof.
  apply (render_after_poll Sample.all_succeed Sample.before
           [Sample.cam1] Sample.new_status 3661);
    first [reflexivity | unfold Number.MAX_SAFE_INTEGER; lia].
Defined.

(** ** Timers and connections over remounts *)

Lemma filter_other_ids (id : nat) (l : list (nat * nat)) :
  Forall (fun t => (fst t < id)%nat) l ->
  List.filter (fun t => negb (Nat.eqb (fst t) id)) l = l.
Proof.
  induction 1 as [| t l Ht _ IH]; simpl; [reflexivity |].
  destruct (Nat.eqb_spec (fst t) id) as [E | _]; [lia |].
  simpl. now rewrite IH.
Qed.

Lemma mount_unmount_intervals (h : Lifecycle.Host) :
  fresh_ids h ->
  Lifecycle.intervals (Lifecycle.mount_unmount h) = Lifecycle.intervals h.
Proof.
  intros Hf. unfold Lifecycle.mount_unmount, Lifecycle.useEffect. simpl.
  rewrite List.filter_app. simpl. rewrite Nat.eqb_refl. simpl.
  rewrite app_nil_r. now apply filter_other_ids.
Qed.

Lemma mount_unmount_fresh (h : Lifecycle.Host) :
  fresh_ids h -> fresh_ids (Lifecycle.mount_unmount h).
Proof.
  intros Hf. unfold fresh_ids. rewrite mount_unmount_intervals by exact Hf.
  unfold Lifecycle.mount_unmount, Lifecycle.useEffect. simpl.
  eapply Forall_impl; [exact Hf |]. simpl. intros t Ht. lia.
Qed.

Lemma mount_unmount_sockets (h : Lifecycle.Host) :
  Lifecycle.sockets (Lifecycle.mount_unmount h)
  = Lifecycle.sockets h
    ++ [Lifecycle.mkSocket "https://vertiapp.xyz"
          ["websocket"; "polling"]%string "/socket.io/" true true
          ["connect"; "send_sensor_data"]%string].
Proof.
  unfold Lifecycle.mount_unmount, Lifecycle.useEffect. simpl.
  rewrite !alter_last. reflexivity.
Qed.

(** X15. With timer ids handed out in increasing order, unmounting
    cancels the timer of this mount and no other: while mounted there is
    one more timer, with a period of 1000 ms, and after the unmount the
    active timers are those from before the mount. *)
Theorem unmount_cancels_own_timer (h : Lifecycle.Host) :
  fresh_ids h ->
  Lifecycle.intervals (fst (Lifecycle.useEffect h))
  = Lifecycle.intervals h ++ [(Lifecycle.nextId h, 1000%nat)]
  /\ Lifecycle.intervals (Lifecycle.mount_unmount h) = Lifecycle.intervals h
  /\ fresh_ids (Lifecycle.mount_unmount h).
Proof.
  intros Hf. split; [reflexivity |]. split.
  - now apply mount_unmount_intervals.
  - now apply mount_unmount_fresh.
Qed.

Lemma unmount_cancels_own_timer_witness :
  Lifecycle.intervals (Lifecycle.mount_unmount Scenario.busy_host)
  = [(3, 250)]%nat.
Proof.
  apply (unmount_cancels_own_timer Scenario.busy_host).
  repeat constructor.
Defined.

Lemma iter_mount_unmount_fresh (h : Lifecycle.Host) (n : nat) :
  fresh_ids h -> fresh_ids (Nat.iter n Lifecycle.mount_unmount h).
Proof.
  intros Hf. induction n as [| n IH]; [exact Hf |].
  rewrite Nat.iter_succ. now apply mount_unmount_fresh.
Qed.

Lemma mount_unmount_polls (h : Lifecycle.Host) :
  Lifecycle.polls (Lifecycle.mount_unmount h) = S (Lifecycle.polls h).
Proof. reflexivity. Qed.

Lemma mount_unmount_subscriptions (h : Lifecycle.Host) :
  Lifecycle.subscriptions "send_sensor_data" (Lifecycle.mount_unmount h)
  = S (Lifecycle.subscriptions "send_sensor_data" h).
Proof.
  unfold Lifecycle.subscriptions. rewrite mount_unmount_sockets.
  rewrite List.filter_app, length_app. simpl. lia.
Qed.

(** X16. Over [n] mounts each followed by its unmount, no timer is left
    behind, while every mount has started one poll and left one more
    open connection subscribed to [send_sensor_data]. *)
Theorem remounts_accumulate (h : Lifecycle.Host) (n : nat) :
  fresh_ids h ->
  Lifecycle.intervals (Nat.iter n Lifecycle.mount_unmount h)
  = Lifecycle.intervals h
  /\ Lifecycle.polls (Nat.iter n Lifecycle.mount_unmount h)
     = (Lifecycle.polls h + n)%nat
  /\ length (Lifecycle.sockets (Nat.iter n Lifecycle.mount_unmount h))
     = (length (Lifecycle.sockets h) + n)%nat
  /\ Lifecycle.subscriptions "send_sensor_data"
       (Nat.iter n Lifecycle.mount_unmount h)
     = (Lifecycle.subscriptions "send_sensor_data" h + n)%nat.
Proof.
  intros Hf. induction n as [| n (Hi & Hp & Hs & Hsub)].
  - simpl. repeat split; lia.
  - pose proof (iter_mount_unmount_fresh h n Hf) as Hn.
    rewrite !Nat.iter_succ. repeat split.
    + rewrite mount_unmount_intervals by exact Hn. exact Hi.
    + rewrite mount_unmount_polls. lia.
    + rewrite mount_unmount_sockets, length_app. simpl. lia.
    + rewrite mount_unmount_subscriptions. lia.
Qed.

Lemma remounts_accumulate_witness :
  Lifecycle.subscriptions "send_sensor_data"
    (Nat.iter 3 Lifecycle.mount_unmount Scenario.busy_host) = 3%nat.
Proof.
  apply (remounts_accumulate Scenario.busy_host 3).
  repeat constructor.
Defined.
